(** * Flight tail optimizer: the logic engines of [services/optimizerEngine.ts]

    A shallow embedding of the rotation validator, the two risk scorers and
    the tail-swap optimizer, together with the two risk-level classifiers of
    the user interface, and the properties the specification states of them.

    Numbers.  A JavaScript [number] is an IEEE 754 binary64 value.  Clock
    values are small integers, on which binary64 arithmetic and comparison
    are exact, so a parsed time is an integer or NaN ([jsint]).  Risk scores
    are modelled generically over the arithmetic ([JsNumber]) and instantiated
    twice: with the kernel's binary64 floats, which is the arithmetic the
    program runs on, and with the rationals, for the statements that are made
    in exact arithmetic. *)

From Stdlib Require Import ZArith QArith String Ascii List Bool Lia Lqa.
From Stdlib Require Import Floats Uint63.
From Stdlib Require Import Sorting.Sorted Sorting.Permutation.
From stdpp Require Import base option list strings gmap.

Import ListNotations.
Local Open Scope Z_scope.

(** ** Integer-valued JavaScript numbers *)

(** [Some z] is the number [z]; [None] is NaN. *)
Definition jsint : Type := option Z.

Definition jsint_add (a b : jsint) : jsint :=
  match a, b with Some x, Some y => Some (x + y) | _, _ => None end.

Definition jsint_sub (a b : jsint) : jsint :=
  match a, b with Some x, Some y => Some (x - y) | _, _ => None end.

Definition jsint_mul (a b : jsint) : jsint :=
  match a, b with Some x, Some y => Some (x * y) | _, _ => None end.

(** Every comparison with NaN is false. *)
Definition jsint_lt (a b : jsint) : bool :=
  match a, b with Some x, Some y => x <? y | _, _ => false end.

Definition jsint_gt (a b : jsint) : bool := jsint_lt b a.

(** ** Strings *)

(** [s.split(sep)] for a one-character separator. *)
Fixpoint String_split (sep : ascii) (s : string) : list string :=
  match s with
  | EmptyString => [EmptyString]
  | String c rest =>
      if Ascii.eqb c sep then EmptyString :: String_split sep rest
      else match String_split sep rest with
           | piece :: more => String c piece :: more
           | [] => [String c EmptyString]
           end
  end.

Definition digit_of (c : ascii) : option Z :=
  let n := Z.of_nat (nat_of_ascii c) in
  if (48 <=? n) && (n <=? 57) then Some (n - 48) else None.

Fixpoint digits_value (acc : Z) (s : string) : option Z :=
  match s with
  | EmptyString => Some acc
  | String c rest =>
      match digit_of c with
      | Some d => digits_value (10 * acc + d) rest
      | None => None
      end
  end.

(** [Number(s)] on the strings that a clock value is made of: the empty
    string is 0 and a string of decimal digits is its value.  Every other
    string is read as NaN here; signs, fractions, exponents, blanks and
    radix prefixes, which [Number] also accepts, do not occur in a clock
    value and are left out of the model, as is the rounding of digit
    strings above 2^53. *)
Definition Number (s : string) : jsint := digits_value 0 s.

(** Rendering of a non-negative integer, as a template literal does. *)
Fixpoint digits_of_nat (fuel : nat) (n : nat) (acc : string) : string :=
  match fuel with
  | O => acc
  | S fuel' =>
      let d := ascii_of_nat (48 + Nat.modulo n 10) in
      let acc' := String d acc in
      match Nat.div n 10 with
      | O => acc'
      | q => digits_of_nat fuel' q acc'
      end
  end.

Definition jsint_toString (v : jsint) : string :=
  match v with
  | None => "NaN"%string
  | Some z =>
      if z <? 0 then "-" +:+ digits_of_nat (S (Z.to_nat (- z))) (Z.to_nat (- z)) ""%string
      else digits_of_nat (S (Z.to_nat z)) (Z.to_nat z) ""%string
  end.

(** ** Data model ([types.ts]) *)

Inductive LegStatus := ON_TIME | DELAYED | CANCELLED.

Record FlightLeg := {
  id : string;
  flightNumber : string;
  origin : string;
  destination : string;
  schedDep : string;
  schedArr : string;
  status : LegStatus
}.

Inductive Severity := WARNING | ERROR.

Record RotationConflict := {
  legId : string;
  reason : string;
  severity : Severity
}.

Record ValidationResult := {
  isValid : bool;
  conflicts : list RotationConflict
}.

(** ** Helpers and constants *)

Definition MCT_MINUTES : Z := 45.

(** [const [hh, mm] = timeStr.split(':').map(Number); return hh * 60 + mm].
    With fewer than two pieces [mm] is [undefined] and the sum is NaN. *)
Definition parseTime (timeStr : string) : jsint :=
  match map Number (String_split ":"%char timeStr) with
  | hh :: mm :: _ => jsint_add (jsint_mul hh (Some 60)) mm
  | _ => None
  end.

(** ** Array.prototype.sort *)

Section ArraySort.
Context {A : Type} (comparefn : A -> A -> jsint).

(** The sort is stable, and a comparator result that is NaN counts as 0:
    an element moves behind another one only when the comparator says it
    is strictly greater.  This is the order of [Array.prototype.sort] for a
    consistent comparator, as the difference of two clock values is when
    all of them are numbers or all of them are NaN; when it is NaN for some
    pairs only, the order is left to the implementation and the model does
    not speak for it. *)
Definition comes_after (x y : A) : bool := jsint_gt (comparefn x y) (Some 0).

Fixpoint sort_insert (x : A) (sorted : list A) : list A :=
  match sorted with
  | [] => [x]
  | y :: rest =>
      if comes_after x y then y :: sort_insert x rest else x :: y :: rest
  end.

Definition Array_sort (items : list A) : list A :=
  fold_right sort_insert [] items.
End ArraySort.

(** ** Rotation engine *)

Definition byDeparture (a b : FlightLeg) : jsint :=
  jsint_sub (parseTime (schedDep a)) (parseTime (schedDep b)).

Definition locationMismatch (current next : FlightLeg) : RotationConflict :=
  {| legId := id next;
     reason := "Location mismatch: Arr " +:+ destination current
               +:+ " != Dep " +:+ origin next;
     severity := ERROR |}.

Definition scheduleOverlap (current next : FlightLeg) : RotationConflict :=
  {| legId := id next;
     reason := "Schedule Overlap: Arrives " +:+ schedArr current
               +:+ ", Departs " +:+ schedDep next;
     severity := ERROR |}.

Definition mctViolation (next : FlightLeg) (gap : jsint) : RotationConflict :=
  {| legId := id next;
     reason := "MCT Violation: Only " +:+ jsint_toString gap
               +:+ " min available (Req: " +:+ jsint_toString (Some MCT_MINUTES) +:+ ")";
     severity := WARNING |}.

(** One iteration of the loop, at index [i]; [conflicts.push] appends.  The
    loop keeps [i + 1] below the length, so both elements exist. *)
Definition checkPair (sortedLegs : list FlightLeg)
    (conflicts : list RotationConflict) (i : nat) : list RotationConflict :=
  match sortedLegs !! i, sortedLegs !! S i with
  | Some current, Some next =>
      let arrTime := parseTime (schedArr current) in
      let nextDepTime := parseTime (schedDep next) in
      let conflicts :=
        if negb (String.eqb (destination current) (origin next))
        then conflicts ++ [locationMismatch current next]
        else conflicts in
      if jsint_gt arrTime nextDepTime
      then conflicts ++ [scheduleOverlap current next]
      else if jsint_lt (jsint_sub nextDepTime arrTime) (Some MCT_MINUTES)
      then conflicts ++ [mctViolation next (jsint_sub nextDepTime arrTime)]
      else conflicts
  | _, _ => conflicts
  end.

(** [for (let i = 0; i < sortedLegs.length - 1; i++)] *)
Definition checkPairs (sortedLegs : list FlightLeg) : list RotationConflict :=
  fold_left (checkPair sortedLegs) (seq 0 (length sortedLegs - 1)) [].

Definition validateSorted (sortedLegs : list FlightLeg) : ValidationResult :=
  let conflicts := checkPairs sortedLegs in
  {| isValid := Nat.eqb (length conflicts) 0; conflicts := conflicts |}.

(** The validator as a function of the contents of the caller's array. *)
Definition validateRotation (legs : list FlightLeg) : ValidationResult :=
  let sortedLegs := Array_sort byDeparture legs in
  validateSorted sortedLegs.

(** *** The same code over the store of arrays

    Arrays are objects: [legs] is a reference, [[...legs]] allocates a new
    array with the same elements, and [sort] reorders the array it is called
    on and returns that same array. *)

Abbreviation loc := positive (only parsing).

Abbreviation heap := (gmap positive (list FlightLeg)).

Definition spread (arr : loc) (h : heap) : option (loc * heap) :=
  match h !! arr with
  | Some items => let copy := fresh (dom h) in Some (copy, <[copy := items]> h)
  | None => None
  end.

Definition sort_in_place (comparefn : FlightLeg -> FlightLeg -> jsint)
    (arr : loc) (h : heap) : option (loc * heap) :=
  match h !! arr with
  | Some items => Some (arr, <[arr := Array_sort comparefn items]> h)
  | None => None
  end.

Definition validateRotation_heap (legs : loc) (h : heap)
    : option (ValidationResult * heap) :=
  match spread legs h with
  | Some (copy, h1) =>
      match sort_in_place byDeparture copy h1 with
      | Some (sortedLegs, h2) =>
          match h2 !! sortedLegs with
          | Some items => Some (validateSorted items, h2)
          | None => None
          end
      | None => None
      end
  | None => None
  end.

(** ** Arithmetic of risk scores *)

Class JsNumber (N : Type) := {
  lit : Q -> N;                (* a decimal literal of the source *)
  num_add : N -> N -> N;
  num_sub : N -> N -> N;
  num_mul : N -> N -> N;
  num_div : N -> N -> N;
  num_lt : N -> N -> bool;
  num_le : N -> N -> bool;
  Math_max : N -> N -> N;
  Math_min : N -> N -> N
}.

Declare Scope js_scope.
Delimit Scope js_scope with js.
Arguments lit {N _} q%_Q.

Definition num_gt {N} `{JsNumber N} (a b : N) : bool := num_lt b a.
Definition num_ge {N} `{JsNumber N} (a b : N) : bool := num_le b a.

Notation "a + b" := (num_add a b) : js_scope.
Notation "a - b" := (num_sub a b) : js_scope.
Notation "a * b" := (num_mul a b) : js_scope.
Notation "a / b" := (num_div a b) : js_scope.
Notation "a < b" := (num_lt a b) : js_scope.
Notation "a <= b" := (num_le a b) : js_scope.
Notation "a > b" := (num_gt a b) : js_scope.
Notation "a >= b" := (num_ge a b) : js_scope.

(** *** binary64 *)

(** A literal [n/d] with [n] and [d] exactly representable: the division is
    correctly rounded, so the result is the binary64 value nearest to the
    decimal, which is what the source literal denotes. *)
Definition float_lit (q : Q) : float :=
  PrimFloat.div (PrimFloat.of_uint63 (Uint63.of_Z (Qnum q)))
                (PrimFloat.of_uint63 (Uint63.of_Z (Zpos (Qden q)))).

(** [Math.max]: NaN if an argument is NaN, and +0 is larger than -0. *)
Definition float_max (a b : float) : float :=
  if PrimFloat.is_nan a || PrimFloat.is_nan b then PrimFloat.nan
  else if PrimFloat.ltb a b then b
  else if PrimFloat.ltb b a then a
  else if PrimFloat.is_zero a && PrimFloat.get_sign a then b else a.

(** [Math.min]: NaN if an argument is NaN, and -0 is smaller than +0. *)
Definition float_min (a b : float) : float :=
  if PrimFloat.is_nan a || PrimFloat.is_nan b then PrimFloat.nan
  else if PrimFloat.ltb a b then a
  else if PrimFloat.ltb b a then b
  else if PrimFloat.is_zero a && PrimFloat.get_sign a then a else b.

#[export] Instance float_JsNumber : JsNumber float := {|
  lit := float_lit;
  num_add := PrimFloat.add;
  num_sub := PrimFloat.sub;
  num_mul := PrimFloat.mul;
  num_div := PrimFloat.div;
  num_lt := PrimFloat.ltb;
  num_le := PrimFloat.leb;
  Math_max := float_max;
  Math_min := float_min
|}.

(** *** Exact arithmetic *)

Definition Qlt_bool (a b : Q) : bool :=
  match Qcompare a b with Lt => true | _ => false end.

#[export] Instance Q_JsNumber : JsNumber Q := {|
  lit := fun q => q;
  num_add := Qplus;
  num_sub := Qminus;
  num_mul := Qmult;
  num_div := Qdiv;
  num_lt := Qlt_bool;
  num_le := Qle_bool;
  Math_max := fun a b => if Qlt_bool a b then b else a;
  Math_min := fun a b => if Qlt_bool a b then a else b
|}.

(** ** Data model of the scorers and the optimizer ([types.ts]) *)

Inductive WeatherCondition := CLEAR | RAIN | SNOW | STORM | FOG.

Record DelayInput (N : Type) := {
  schedDepTime : string;
  prevDelayMinutes : N;
  aircraftType : string;
  weatherCondition : WeatherCondition
}.
Arguments schedDepTime {N}.
Arguments prevDelayMinutes {N}.
Arguments aircraftType {N}.
Arguments weatherCondition {N}.

Record Aircraft (N : Type) := {
  tailNumber : string;
  type : string;
  ageYears : N;
  cycles : N;
  lastMaintenance : string;
  snagCount : N
}.
Arguments tailNumber {N}.
Arguments type {N}.
Arguments ageYears {N}.
Arguments cycles {N}.
Arguments lastMaintenance {N}.
Arguments snagCount {N}.

Record SwapScenario (N : Type) := {
  aircraftA : Aircraft N;
  aircraftB : Aircraft N;
  riskScoreA : N;
  riskScoreB : N;
  improvement : N;
  feasible : bool;
  recommendation : string
}.
Arguments aircraftA {N}.
Arguments aircraftB {N}.
Arguments riskScoreA {N}.
Arguments riskScoreB {N}.
Arguments improvement {N}.
Arguments feasible {N}.
Arguments recommendation {N}.

(** The platform's clock and date parser: [new Date().getTime()] and
    [new Date(s).getTime()], in milliseconds (NaN for an invalid date). *)
Record DateEnv (N : Type) := {
  Date_now : N;
  Date_getTime : string -> N
}.
Arguments Date_now {N}.
Arguments Date_getTime {N}.

(** ** Logic engines *)

Section Engines.
Context {N : Type} `{JsNumber N}.
Local Open Scope js_scope.

Definition calculateDelayRisk (input : DelayInput N) : N :=
  let score := lit 0.1 in
  let minutes := parseTime (schedDepTime input) in
  let score :=
    if jsint_gt minutes (Some 1000%Z) then score + lit 0.2
    else if jsint_gt minutes (Some 720%Z) then score + lit 0.1
    else score in
  let score :=
    if prevDelayMinutes input > lit 60 then score + lit 0.4
    else if prevDelayMinutes input > lit 15 then score + lit 0.2
    else score in
  let score :=
    match weatherCondition input with
    | STORM => score + lit 0.5
    | SNOW => score + lit 0.4
    | FOG => score + lit 0.3
    | RAIN => score + lit 0.1
    | CLEAR => score
    end in
  let score :=
    if String.eqb (aircraftType input) "B737-MAX"
       || String.eqb (aircraftType input) "A321neo"
    then score - lit 0.05
    else score in
  Math_min (Math_max score (lit 0)) (lit 0.99).

Definition daysSinceMaint (env : DateEnv N) (ac : Aircraft N) : N :=
  (Date_now env - Date_getTime env (lastMaintenance ac))
  / (lit 1000 * lit 3600 * lit 24).

Definition calculateMaintenanceRisk (env : DateEnv N) (ac : Aircraft N) : N :=
  let risk := lit 0.05 in
  let risk := risk + ageYears ac * lit 0.015 in
  let risk := risk + (cycles ac / lit 10000) * lit 0.1 in
  let risk := risk + snagCount ac * lit 0.08 in
  let risk := if daysSinceMaint env ac > lit 30 then risk + lit 0.15 else risk in
  Math_min (Math_max risk (lit 0)) (lit 1).

Definition optimizeTailSwap (env : DateEnv N)
    (ac1 : Aircraft N) (legs1 : list FlightLeg)
    (ac2 : Aircraft N) (legs2 : list FlightLeg) : SwapScenario N :=
  let baseRisk1 := calculateMaintenanceRisk env ac1 in
  let baseRisk2 := calculateMaintenanceRisk env ac2 in
  let totalBaseRisk := baseRisk1 + baseRisk2 in
  let feasibility1 := validateRotation legs2 in
  let feasibility2 := validateRotation legs1 in
  let feasible := isValid feasibility1 && isValid feasibility2 in
  let legs1Load := length legs1 in
  let legs2Load := length legs2 in
  let newRisks :=
    if (baseRisk1 > baseRisk2) && (legs2Load <? legs1Load)%nat
    then (baseRisk1 * lit 0.8, baseRisk2 * lit 1.1)
    else if (baseRisk2 > baseRisk1) && (legs1Load <? legs2Load)%nat
    then (baseRisk1 * lit 1.1, baseRisk2 * lit 0.8)
    else (baseRisk1, baseRisk2) in
  let newRisk1 := fst newRisks in
  let newRisk2 := snd newRisks in
  let totalNewRisk := newRisk1 + newRisk2 in
  let improvement := (totalBaseRisk - totalNewRisk) * lit 100 in
  let recommendation :=
    if negb feasible then "Swap not feasible due to rotation conflicts."
    else if improvement > lit 5
    then "STRONG RECOMMENDATION: Swap tails to mitigate maintenance risk on tight rotation."
    else if improvement > lit 0 then "Marginal benefit. Swap at discretion."
    else "Keep current assignment." in
  {| aircraftA := ac1;
     aircraftB := ac2;
     riskScoreA := newRisk1;
     riskScoreB := newRisk2;
     improvement := improvement;
     feasible := feasible;
     recommendation := recommendation |}.

(** *** Risk-level classifiers of the user interface *)

Inductive BadgeLabel := LOW | MEDIUM | HIGH.

(** The [riskLabel] that the [RiskBadge] component displays. *)
Definition RiskBadge_riskLabel (score : N) : BadgeLabel :=
  if score > lit 0.6 then HIGH
  else if score >= lit 0.25 then MEDIUM
  else LOW.

Inductive RiskLevelName := low | medium | high.

(** [calculateRiskLevel] of [DelayRiskPage]. *)
Definition calculateRiskLevel (score : N) : RiskLevelName :=
  if score < lit 0.25 then low
  else if score <= lit 0.6 then medium
  else high.
End Engines.

(** ** Specification-side definitions *)

(** A clock value [HH:MM] with [HH] in 00..23 and [MM] in 00..59. *)
Definition wellFormedTime (s : string) : bool :=
  match s with
  | String h1 (String h2 (String c (String m1 (String m2 EmptyString)))) =>
      match digit_of h1, digit_of h2, digit_of m1, digit_of m2 with
      | Some a, Some b, Some x, Some y =>
          Ascii.eqb c ":"%char && (10 * a + b <=? 23) && (10 * x + y <=? 59)
      | _, _, _, _ => false
      end
  | _ => false
  end.

(** The clock value of hour [h] and minute [m], two digits each. *)
Definition two_digits (n : Z) : string :=
  String (ascii_of_nat (48 + Z.to_nat (n / 10)))
    (String (ascii_of_nat (48 + Z.to_nat (n mod 10))) EmptyString).

Definition clock (h m : Z) : string := two_digits h +:+ ":" +:+ two_digits m.

Definition wellFormedLeg (leg : FlightLeg) : Prop :=
  wellFormedTime (schedDep leg) = true /\ wellFormedTime (schedArr leg) = true.

(** The minute of day [HH * 60 + MM] of a clock value [HH:MM]. *)
Definition minuteOf (s : string) : Z :=
  match s with
  | String h1 (String h2 (String _ (String m1 (String m2 _)))) =>
      match digit_of h1, digit_of h2, digit_of m1, digit_of m2 with
      | Some a, Some b, Some x, Some y => (10 * a + b) * 60 + (10 * x + y)
      | _, _, _, _ => 0
      end
  | _ => 0
  end.

Definition depMinute (leg : FlightLeg) : Z := minuteOf (schedDep leg).
Definition arrMinute (leg : FlightLeg) : Z := minuteOf (schedArr leg).

(** Ascending order by an integer key. *)
Definition key_le {A} (key : A -> Z) (x y : A) : Prop := key x <= key y.

(** The adjacent pairs (current, next) of a list, in order. *)
Definition adjacentPairs {A} (l : list A) : list (A * A) := zip l (tail l).

(** What the specification asks for one adjacent pair. *)
Definition pairConflicts (pair : FlightLeg * FlightLeg) : list RotationConflict :=
  let (current, next) := pair in
  (if decide (destination current = origin next) then []
   else [locationMismatch current next])
  ++ (if decide (arrMinute current > depMinute next)
      then [scheduleOverlap current next]
      else if decide (depMinute next - arrMinute current < 45)
      then [mctViolation next (Some (depMinute next - arrMinute current))]
      else []).

(** The conflicts pushed by one iteration of the loop, as the code computes
    them. *)
Definition pushed (current next : FlightLeg) : list RotationConflict :=
  checkPair [current; next] [] 0.

(** A leg of the examples. *)
Definition leg (i o d dep arr : string) : FlightLeg :=
  {| id := i; flightNumber := "TK" +:+ i; origin := o; destination := d;
     schedDep := dep; schedArr := arr; status := ON_TIME |}.

(** ** The order of binary64 values

    A number that is not NaN is ranked by a triple of integers, ordered
    lexicographically: the class (the infinities at the ends, the zeros in
    the middle), then exponent and mantissa, negated for negative numbers. *)

Definition SFrank (x : spec_float) : option (Z * Z * Z) :=
  match x with
  | S754_nan => None
  | S754_infinity true => Some (-2, 0, 0)
  | S754_finite true m e => Some (-1, - e, Zneg m)
  | S754_zero _ => Some (0, 0, 0)
  | S754_finite false m e => Some (1, e, Zpos m)
  | S754_infinity false => Some (2, 0, 0)
  end.

Definition rank_cmp (a b : Z * Z * Z) : comparison :=
  match a.1.1 ?= b.1.1 with
  | Eq => match a.1.2 ?= b.1.2 with
          | Eq => a.2 ?= b.2
          | c => c
          end
  | c => c
  end.

Definition rank_lt (a b : Z * Z * Z) : Prop :=
  a.1.1 < b.1.1
  \/ (a.1.1 = b.1.1 /\ (a.1.2 < b.1.2 \/ (a.1.2 = b.1.2 /\ a.2 < b.2))).

Definition rank_le (a b : Z * Z * Z) : Prop :=
  a.1.1 < b.1.1
  \/ (a.1.1 = b.1.1 /\ (a.1.2 < b.1.2 \/ (a.1.2 = b.1.2 /\ a.2 <= b.2))).

Definition float_rank (x : float) : option (Z * Z * Z) := SFrank (Prim2SF x).

(** [x] is a number: not NaN. *)
Definition is_number (x : float) : Prop := PrimFloat.is_nan x = false.

(** ** The scoring rules in the words of the specification *)

Section ScoringRules.
Context {N : Type} `{JsNumber N}.
Local Open Scope js_scope.

Definition clamp (lo hi x : N) : N := Math_min (Math_max x lo) hi.

Definition timePenalty (minute : Z) : N :=
  if (1000 <? minute)%Z then lit 0.2
  else if (720 <? minute)%Z then lit 0.1
  else lit 0.

Definition cascadePenalty (inboundDelay : N) : N :=
  if inboundDelay > lit 60 then lit 0.4
  else if inboundDelay > lit 15 then lit 0.2
  else lit 0.

Definition weatherPenalty (w : WeatherCondition) : N :=
  match w with
  | STORM => lit 0.5
  | SNOW => lit 0.4
  | FOG => lit 0.3
  | RAIN => lit 0.1
  | CLEAR => lit 0
  end.

Definition typeDiscount (aircraftType : string) : N :=
  if decide (aircraftType = "B737-MAX" \/ aircraftType = "A321neo")
  then lit 0.05 else lit 0.

Definition delayRisk (minute : Z) (input : DelayInput N) : N :=
  clamp (lit 0) (lit 0.99)
    (lit 0.1 + timePenalty minute + cascadePenalty (prevDelayMinutes input)
     + weatherPenalty (weatherCondition input) - typeDiscount (aircraftType input)).

(** The same input with another inbound delay. *)
Definition withDelay (input : DelayInput N) (d : N) : DelayInput N :=
  {| schedDepTime := schedDepTime input;
     prevDelayMinutes := d;
     aircraftType := aircraftType input;
     weatherCondition := weatherCondition input |}.

(** The days between the last-maintenance date and the current date: the
    difference of their two time values, which are in milliseconds, over the
    86400000 milliseconds of a day. *)
Definition daysBetween (lastMaintenanceTime currentTime : N) : N :=
  (currentTime - lastMaintenanceTime) / lit 86400000.

(** 0.15 when more than 30 days lie between the last maintenance and the
    current date. *)
Definition overduePenalty (env : DateEnv N) (ac : Aircraft N) : N :=
  if lit 30 < daysBetween (Date_getTime env (lastMaintenance ac)) (Date_now env)
  then lit 0.15 else lit 0.

Definition maintenanceRisk (env : DateEnv N) (ac : Aircraft N) : N :=
  clamp (lit 0) (lit 1)
    (lit 0.05 + ageYears ac * lit 0.015 + (cycles ac / lit 10000) * lit 0.1
     + snagCount ac * lit 0.08 + overduePenalty env ac).

(** The canonical three-way rule; it says nothing of a score that is none of
    below 0.25, between 0.25 and 0.6, above 0.6. *)
Definition canonicalLevel (score : N) : option RiskLevelName :=
  if score < lit 0.25 then Some low
  else if (lit 0.25 <= score) && (score <= lit 0.6) then Some medium
  else if score > lit 0.6 then Some high
  else None.

Definition levelOfLabel (label : BadgeLabel) : RiskLevelName :=
  match label with LOW => low | MEDIUM => medium | HIGH => high end.
End ScoringRules.

(** ** Finite case analysis by computation *)

Definition forall_bool (P : bool -> bool) : bool := P true && P false.

Definition forall_weather (P : WeatherCondition -> bool) : bool :=
  P CLEAR && P RAIN && P SNOW && P STORM && P FOG.

Section DelayTable.
Context {N : Type} `{JsNumber N}.
Local Open Scope js_scope.

(** The body of [calculateDelayRisk] as a function of the outcome of its
    tests; [calculateDelayRisk_flags] below shows that it is the same code. *)
Definition delayScoreOf (after1000 after720 over60 over15 : bool)
    (w : WeatherCondition) (newer : bool) : N :=
  let score := lit 0.1 in
  let score :=
    if after1000 then score + lit 0.2
    else if after720 then score + lit 0.1
    else score in
  let score :=
    if over60 then score + lit 0.4
    else if over15 then score + lit 0.2
    else score in
  let score :=
    match w with
    | STORM => score + lit 0.5
    | SNOW => score + lit 0.4
    | FOG => score + lit 0.3
    | RAIN => score + lit 0.1
    | CLEAR => score
    end in
  let score := if newer then score - lit 0.05 else score in
  Math_min (Math_max score (lit 0)) (lit 0.99).

(** The rule of the specification on the same flags. *)
Definition delayRuleOf (after1000 after720 over60 over15 : bool)
    (w : WeatherCondition) (newer : bool) : N :=
  clamp (lit 0) (lit 0.99)
    (lit 0.1
     + (if after1000 then lit 0.2 else if after720 then lit 0.1 else lit 0)
     + (if over60 then lit 0.4 else if over15 then lit 0.2 else lit 0)
     + weatherPenalty w
     - (if newer then lit 0.05 else lit 0)).
End DelayTable.

(** ** The swap rules in the words of the specification *)

Section SwapRules.
Context {N : Type} `{JsNumber N}.
Local Open Scope js_scope.

(** One aircraft is both the riskier one and the one on the heavier
    schedule. *)
Definition riskierAndHeavier (riskX riskY : N) (loadX loadY : nat) : Prop :=
  (riskX > riskY) = true /\ (loadY < loadX)%nat.

(** The decision table: the post-swap scores of A and B. *)
Definition swapScores (baseRiskA baseRiskB : N) (loadA loadB : nat) : N * N :=
  if decide (riskierAndHeavier baseRiskA baseRiskB loadA loadB)
  then (baseRiskA * lit 0.8, baseRiskB * lit 1.1)
  else if decide (riskierAndHeavier baseRiskB baseRiskA loadB loadA)
  then (baseRiskA * lit 1.1, baseRiskB * lit 0.8)
  else (baseRiskA, baseRiskB).

(** The recommendation, by priority. *)
Definition recommendationFor (feasible : bool) (improvement : N) : string :=
  if decide (feasible = false) then "Swap not feasible due to rotation conflicts."
  else if decide ((improvement > lit 5) = true)
  then "STRONG RECOMMENDATION: Swap tails to mitigate maintenance risk on tight rotation."
  else if decide ((improvement > lit 0) = true) then "Marginal benefit. Swap at discretion."
  else "Keep current assignment.".
End SwapRules.

(** The aircraft and the rotations of the tail-swap page. *)
Definition AC_A {N} `{JsNumber N} : Aircraft N :=
  {| tailNumber := "TC-JNA"; type := "B737-800"; ageYears := lit 12;
     cycles := lit 14500; lastMaintenance := "2023-10-01"; snagCount := lit 3 |}.

Definition AC_B {N} `{JsNumber N} : Aircraft N :=
  {| tailNumber := "TC-JNB"; type := "B737-800"; ageYears := lit 2;
     cycles := lit 1200; lastMaintenance := "2023-11-01"; snagCount := lit 0 |}.

Definition LEGS_A : list FlightLeg :=
  [ {| id := "a1"; flightNumber := "TK101"; origin := "IST"; destination := "LHR";
       schedDep := "08:00"; schedArr := "10:00"; status := ON_TIME |};
    {| id := "a2"; flightNumber := "TK102"; origin := "LHR"; destination := "IST";
       schedDep := "11:00"; schedArr := "15:00"; status := ON_TIME |};
    {| id := "a3"; flightNumber := "TK103"; origin := "IST"; destination := "DXB";
       schedDep := "17:00"; schedArr := "22:00"; status := ON_TIME |} ].

Definition LEGS_B : list FlightLeg :=
  [ {| id := "b1"; flightNumber := "TK201"; origin := "IST"; destination := "ESB";
       schedDep := "09:00"; schedArr := "10:00"; status := ON_TIME |};
    {| id := "b2"; flightNumber := "TK202"; origin := "ESB"; destination := "IST";
       schedDep := "11:00"; schedArr := "12:00"; status := ON_TIME |} ].

(** A clock: the evaluation instant 2023-11-15T00:00Z, with the two
    maintenance dates of the page and 0/0 (NaN on binary64) for any other
    string. *)
Definition sampleEnv {N} `{JsNumber N} : DateEnv N :=
  {| Date_now := lit 1700006400000;
     Date_getTime := fun s =>
       if String.eqb s "2023-10-01" then lit 1696118400000
       else if String.eqb s "2023-11-01" then lit 1698796800000
       else num_div (lit 0) (lit 0) |}.

(** ** Non-negative binary64 values *)

(** A zero of either sign, a positive finite number or plus infinity. *)
Definition SFnonneg (x : spec_float) : Prop :=
  match x with
  | S754_zero _ | S754_infinity false | S754_finite false _ _ => True
  | _ => False
  end.

(** A positive finite number. *)
Definition SFpositive (x : spec_float) : Prop :=
  match x with
  | S754_finite false _ _ => True
  | _ => False
  end.

(** ** Further definitions *)

(** [c] occurs in [s]. *)
Fixpoint occurs (c : ascii) (s : string) : bool :=
  match s with
  | EmptyString => false
  | String d rest => Ascii.eqb d c || occurs c rest
  end.

(** Neither clock value of the leg contains a colon. *)
Definition colonFree (leg : FlightLeg) : Prop :=
  occurs ":" (schedDep leg) = false /\ occurs ":" (schedArr leg) = false.

(** The stations connect and at least the minimum connection time lies
    between arrival and next departure. *)
Definition connects (pair : FlightLeg * FlightLeg) : Prop :=
  destination pair.1 = origin pair.2 /\ arrMinute pair.1 + 45 <= depMinute pair.2.

(** The stations connect and the next leg does not leave before the
    arrival. *)
Definition flyable (pair : FlightLeg * FlightLeg) : Prop :=
  destination pair.1 = origin pair.2 /\ arrMinute pair.1 <= depMinute pair.2.

Definition isError (c : RotationConflict) : bool :=
  match severity c with ERROR => true | WARNING => false end.

(** What an iteration reports when only the stations are compared. *)
Definition mismatchOnly (pair : FlightLeg * FlightLeg) : list RotationConflict :=
  if decide (destination pair.1 = origin pair.2) then []
  else [locationMismatch pair.1 pair.2].

(** The same delay input with another departure time, weather or aircraft
    type. *)
Definition withDepTime {N} (input : DelayInput N) (s : string) : DelayInput N :=
  {| schedDepTime := s;
     prevDelayMinutes := prevDelayMinutes input;
     aircraftType := aircraftType input;
     weatherCondition := weatherCondition input |}.

Definition withWeather {N} (input : DelayInput N) (w : WeatherCondition) : DelayInput N :=
  {| schedDepTime := schedDepTime input;
     prevDelayMinutes := prevDelayMinutes input;
     aircraftType := aircraftType input;
     weatherCondition := w |}.

Definition withType {N} (input : DelayInput N) (ty : string) : DelayInput N :=
  {| schedDepTime := schedDepTime input;
     prevDelayMinutes := prevDelayMinutes input;
     aircraftType := ty;
     weatherCondition := weatherCondition input |}.

(** The three levels in ascending order. *)
Definition levelRank (l : RiskLevelName) : Z :=
  match l with low => 0 | medium => 1 | high => 2 end.

(** The same leg with another status. *)
Definition withStatus (st : LegStatus) (l : FlightLeg) : FlightLeg :=
  {| id := id l; flightNumber := flightNumber l; origin := origin l;
     destination := destination l; schedDep := schedDep l; schedArr := schedArr l;
     status := st |}.

(** [handleOptimize] of the tail-swap page: the scenario it stores as the
    page's result. *)
Definition handleOptimize {N} `{JsNumber N} (env : DateEnv N) : SwapScenario N :=
  optimizeTailSwap env AC_A LEGS_A AC_B LEGS_B.

(** ** The rotation page

    The part of the page's state that its local handlers use: the legs and
    the last validation result ([null] when there is none). *)
Record RotationPageState := {
  legs : list FlightLeg;
  validationResult : option ValidationResult
}.

(** [setLegs(legs.filter(l => l.id !== id)); setValidationResult(null)] *)
Definition handleRemoveLeg (i : string) (st : RotationPageState) : RotationPageState :=
  {| legs := List.filter (fun l => negb (String.eqb (id l) i)) (legs st);
     validationResult := None |}.

(** [setValidationResult(validateRotation(legs))] *)
Definition runValidation (st : RotationPageState) : RotationPageState :=
  {| legs := legs st;
     validationResult := Some (validateRotation (legs st)) |}.

(** Rendering sorts the array held in [legs] in place, by [localeCompare] of
    the departure strings: afterwards the state holds the same legs, in some
    order. *)
Definition rendered (st st' : RotationPageState) : Prop :=
  Permutation (legs st') (legs st) /\ validationResult st' = validationResult st.

(** ** The API client ([services/api.ts]) and the delay-risk page

    The client is modelled as a function of the outcome of the request that
    axios makes; what it writes to the console is left out. *)

(** The values a response body is made of. *)
#[warnings="-register-all"]
Inductive JsValue :=
| VUndefined
| VNull
| VBool (b : bool)
| VNum (n : float)
| VStr (s : string)
| VArr (items : list JsValue)
| VObj (fields : list (string * JsValue)).

(** Whether a value counts as true in a condition. *)
Definition truthy (v : JsValue) : bool :=
  match v with
  | VUndefined | VNull => false
  | VBool b => b
  | VNum n => negb (PrimFloat.is_zero n || PrimFloat.is_nan n)
  | VStr s => negb (String.eqb s "")
  | VArr _ | VObj _ => true
  end.

(** The fields of an object are kept as an association list, in which the
    first binding of a key counts. *)
Fixpoint lookup_field (key : string) (fields : list (string * JsValue)) : JsValue :=
  match fields with
  | [] => VUndefined
  | (k, v) :: rest => if String.eqb k key then v else lookup_field key rest
  end.

(** [v.key] for the keys the client reads ([riskScore], [riskLevel],
    [detail]), none of which is a built-in property: the field of an object,
    [undefined] on every other value. *)
Definition property (key : string) (v : JsValue) : JsValue :=
  match v with
  | VObj fields => lookup_field key fields
  | _ => VUndefined
  end.

(** The number that [v] is, when [typeof v === 'number']. *)
Definition numberOf (v : JsValue) : option float :=
  match v with VNum n => Some n | _ => None end.

(** The error that axios rejects with, as far as the client looks at it:
    [error.response] is set when the server answered with an error status,
    [error.request] when the request was sent. *)
Record ErrorResponse := {
  response_status : Z;
  response_statusText : string;
  response_data : JsValue
}.

Record RequestError := {
  error_response : option ErrorResponse;
  error_request : bool;
  error_message : string
}.

(** The outcome of [await apiClient.post(...)]. *)
Inductive AxiosOutcome :=
| Fulfilled (data : JsValue)
| Failed (error : RequestError).

(** How the promise of an API function settles; a rejection is an [Error]
    with the given message. *)
Inductive Settled :=
| Resolved (value : JsValue)
| Rejected (message : string).

Definition invalidBody : string :=
  "Invalid response from API: riskScore is missing or not a number".

Definition backendDown : string :=
  "Backend server is not responding. Please make sure the backend is running on http://localhost:8000".

Section ApiClient.
(** The conversion to a string that a template literal applies. *)
Variable ToString : JsValue -> string.

(** [error.response.data?.detail || error.response.statusText] *)
Definition detailOrStatusText (r : ErrorResponse) : JsValue :=
  let detail :=
    match response_data r with
    | VUndefined | VNull => VUndefined
    | data => property "detail" data
    end in
  if truthy detail then detail else VStr (response_statusText r).

(** The [catch] block: the message of the error thrown in place of the one
    caught. *)
Definition rethrown (error : RequestError) : string :=
  match error_response error with
  | Some r =>
      "API Error: " +:+ jsint_toString (Some (response_status r)) +:+ " - "
      +:+ ToString (detailOrStatusText r)
  | None =>
      if error_request error then backendDown
      else "Request failed: " +:+ error_message error
  end.

Definition postDelayRisk (outcome : AxiosOutcome) : Settled :=
  let attempt : JsValue + RequestError :=
    match outcome with
    | Fulfilled data =>
        match (if truthy data then numberOf (property "riskScore" data) else None) with
        | None =>
            (* [throw new Error(...)], inside the [try] *)
            inr {| error_response := None; error_request := false;
                   error_message := invalidBody |}
        | Some _ => inl data
        end
    | Failed error => inr error
    end in
  match attempt with
  | inl data => Resolved data
  | inr error => Rejected (rethrown error)
  end.

(** *** [handleCalculate] of the delay-risk page *)

Record DelayPageState := {
  riskScore : option float;
  riskLevel : option JsValue;
  error : option string;
  isLoading : bool
}.

Definition pageCheckFailed : string :=
  "Invalid response from API. Expected riskScore as number.".

Definition levelName (l : RiskLevelName) : string :=
  match l with low => "low" | medium => "medium" | high => "high" end.

(** The state of the page when [handleCalculate] has run to its end. *)
Definition handleCalculate (outcome : AxiosOutcome) : DelayPageState :=
  let attempt : float * JsValue + string :=
    match postDelayRisk outcome with
    | Resolved response =>
        match (if truthy response then numberOf (property "riskScore" response)
               else None) with
        | None => inr pageCheckFailed
        | Some score =>
            let level :=
              if truthy (property "riskLevel" response) then property "riskLevel" response
              else VStr (levelName (calculateRiskLevel score)) in
            inl (score, level)
        end
    | Rejected message => inr message
    end in
  match attempt with
  | inl (score, level) =>
      {| riskScore := Some score; riskLevel := Some level; error := None;
         isLoading := false |}
  | inr message =>
      {| riskScore := None; riskLevel := None;
         error :=
           Some (if String.eqb message "" then
                   "Failed to calculate delay risk. Please make sure the backend is running on http://localhost:8000"
                 else message);
         isLoading := false |}
  end.
End ApiClient.

(** ** TimeCodec *)

Lemma digit_of_neq_colon c d : digit_of c = Some d -> Ascii.eqb c ":"%char = false.
Proof.
  unfold digit_of. intros Hd. destruct (Ascii.eqb_spec c ":"%char) as [->|]; [|done].
  vm_compute in Hd. discriminate.
Qed.

Lemma digit_of_range c d : digit_of c = Some d -> 0 <= d <= 9.
Proof.
  unfold digit_of. destruct (_ && _) eqn:E; [|done]. intros [= <-].
  apply andb_true_iff in E as [?%Z.leb_le ?%Z.leb_le]. lia.
Qed.

Lemma digit_of_ascii d :
  0 <= d <= 9 -> digit_of (ascii_of_nat (48 + Z.to_nat d)) = Some d.
Proof.
  intros Hd.
  assert (Hcases : d = 0 \/ d = 1 \/ d = 2 \/ d = 3 \/ d = 4 \/ d = 5 \/ d = 6
                   \/ d = 7 \/ d = 8 \/ d = 9) by lia.
  repeat (destruct Hcases as [-> | Hcases]; [reflexivity|]). by subst.
Qed.

Lemma ascii_of_digit c d : digit_of c = Some d -> c = ascii_of_nat (48 + Z.to_nat d).
Proof.
  unfold digit_of. destruct (_ && _) eqn:E; [|done]. intros [= <-].
  apply andb_true_iff in E as [?%Z.leb_le ?%Z.leb_le].
  rewrite <- (ascii_nat_embedding c) at 1. f_equal. lia.
Qed.

Lemma parseTime_digits h1 h2 m1 m2 a b x y :
  digit_of h1 = Some a -> digit_of h2 = Some b ->
  digit_of m1 = Some x -> digit_of m2 = Some y ->
  parseTime (String h1 (String h2 (String ":" (String m1 (String m2 EmptyString)))))
  = Some ((10 * a + b) * 60 + (10 * x + y)).
Proof.
  intros Ha Hb Hx Hy. unfold parseTime. cbn [String_split].
  rewrite (digit_of_neq_colon _ _ Ha), (digit_of_neq_colon _ _ Hb).
  rewrite (digit_of_neq_colon _ _ Hx), (digit_of_neq_colon _ _ Hy).
  cbn. unfold Number. cbn. rewrite Ha, Hb, Hx, Hy. cbn. f_equal; lia.
Qed.

Lemma clock_chars h m :
  clock h m
  = String (ascii_of_nat (48 + Z.to_nat (h / 10)))
      (String (ascii_of_nat (48 + Z.to_nat (h mod 10)))
         (String ":"
            (String (ascii_of_nat (48 + Z.to_nat (m / 10)))
               (String (ascii_of_nat (48 + Z.to_nat (m mod 10))) EmptyString)))).
Proof. reflexivity. Qed.

(** On a well-formed clock value [parseTime] is [HH * 60 + MM]. *)
Lemma parseTime_wellFormed s :
  wellFormedTime s = true ->
  exists h m, 0 <= h <= 23 /\ 0 <= m <= 59 /\ s = clock h m
              /\ parseTime s = Some (h * 60 + m).
Proof.
  destruct s as [|h1 [|h2 [|c [|m1 [|m2 [|]]]]]]; try done. simpl.
  destruct (digit_of h1) as [a|] eqn:Ha; [|done].
  destruct (digit_of h2) as [b|] eqn:Hb; [|done].
  destruct (digit_of m1) as [x|] eqn:Hx; [|done].
  destruct (digit_of m2) as [y|] eqn:Hy; [|done].
  intros [[Hc%Ascii.eqb_eq Hh%Z.leb_le]%andb_true_iff Hm%Z.leb_le]%andb_true_iff.
  subst c. exists (10 * a + b), (10 * x + y).
  apply digit_of_range in Ha as Ra, Hb as Rb, Hx as Rx, Hy as Ry.
  split; [lia|]. split; [lia|]. split; [|by apply parseTime_digits].
  rewrite clock_chars.
  replace ((10 * a + b) / 10) with a by (Z.div_mod_to_equations; lia).
  replace ((10 * a + b) mod 10) with b by (Z.div_mod_to_equations; lia).
  replace ((10 * x + y) / 10) with x by (Z.div_mod_to_equations; lia).
  replace ((10 * x + y) mod 10) with y by (Z.div_mod_to_equations; lia).
  by rewrite <- (ascii_of_digit _ _ Ha), <- (ascii_of_digit _ _ Hb),
    <- (ascii_of_digit _ _ Hx), <- (ascii_of_digit _ _ Hy).
Qed.

(** Conversely the clock value of [h] and [m] is well-formed and parses to
    [h * 60 + m]. *)
Lemma parseTime_clock h m :
  0 <= h <= 23 -> 0 <= m <= 59 ->
  wellFormedTime (clock h m) = true /\ parseTime (clock h m) = Some (h * 60 + m).
Proof.
  intros Hh Hm. rewrite clock_chars.
  assert (Ha : 0 <= h / 10 <= 9) by (Z.div_mod_to_equations; lia).
  assert (Hb : 0 <= h mod 10 <= 9) by (Z.div_mod_to_equations; lia).
  assert (Hx : 0 <= m / 10 <= 9) by (Z.div_mod_to_equations; lia).
  assert (Hy : 0 <= m mod 10 <= 9) by (Z.div_mod_to_equations; lia).
  apply digit_of_ascii in Ha, Hb, Hx, Hy. split.
  - unfold wellFormedTime. rewrite Ha, Hb, Hx, Hy. simpl.
    apply andb_true_iff. split; apply Z.leb_le; Z.div_mod_to_equations; lia.
  - rewrite (parseTime_digits _ _ _ _ _ _ _ _ Ha Hb Hx Hy). f_equal.
    Z.div_mod_to_equations; lia.
Qed.

Lemma parseTime_minuteOf s :
  wellFormedTime s = true -> parseTime s = Some (minuteOf s).
Proof.
  destruct s as [|h1 [|h2 [|c [|m1 [|m2 [|]]]]]]; try done. simpl.
  destruct (digit_of h1) as [a|] eqn:Ha; [|done].
  destruct (digit_of h2) as [b|] eqn:Hb; [|done].
  destruct (digit_of m1) as [x|] eqn:Hx; [|done].
  destruct (digit_of m2) as [y|] eqn:Hy; [|done].
  intros [[Hc%Ascii.eqb_eq _]%andb_true_iff _]%andb_true_iff. subst c.
  by apply parseTime_digits.
Qed.

Lemma minuteOf_range s :
  wellFormedTime s = true -> 0 <= minuteOf s <= 1439.
Proof.
  intros Hwf. pose proof (parseTime_minuteOf s Hwf) as Hp.
  destruct (parseTime_wellFormed s Hwf) as (h & m & ? & ? & _ & E).
  rewrite E in Hp. injection Hp as <-. lia.
Qed.

Lemma minuteOf_clock h m :
  0 <= h <= 23 -> 0 <= m <= 59 -> minuteOf (clock h m) = h * 60 + m.
Proof.
  intros Hh Hm. destruct (parseTime_clock h m Hh Hm) as [Hwf Hp].
  rewrite (parseTime_minuteOf _ Hwf) in Hp. exact (inj Some _ _ Hp).
Qed.

(** ** Array.prototype.sort *)

Section ArraySortFacts.
Context {A : Type} (comparefn : A -> A -> jsint).

Lemma sort_insert_Permutation x l :
  Permutation (sort_insert comparefn x l) (x :: l).
Proof.
  induction l as [|y l IH]; simpl; [done|].
  destruct (comes_after comparefn x y); [|done].
  rewrite IH. apply perm_swap.
Qed.

Lemma Array_sort_Permutation l : Permutation (Array_sort comparefn l) l.
Proof.
  induction l as [|x l IH]; simpl; [done|].
  rewrite sort_insert_Permutation. by constructor.
Qed.

Lemma Array_sort_length l : length (Array_sort comparefn l) = length l.
Proof. apply Permutation_length, Array_sort_Permutation. Qed.

(** With a comparator that is the difference of integer keys the result is
    sorted by key. *)
Context (key : A -> Z).

Lemma sort_insert_sorted x l :
  (forall y, y ∈ x :: l -> comparefn x y = Some (key x - key y)) ->
  StronglySorted (key_le key) l ->
  StronglySorted (key_le key) (sort_insert comparefn x l).
Proof.
  intros Hc Hs. induction Hs as [|y l Hs IH Hy]; simpl.
  - repeat constructor.
  - unfold comes_after. rewrite Hc by set_solver. simpl.
    destruct (Z.ltb_spec 0 (key x - key y)) as [Hlt|Hge].
    + constructor.
      * apply IH. intros z Hz. apply Hc.
          apply elem_of_cons in Hz as [->|Hz]; [by left|by do 2 right].
      * apply Forall_forall. intros z Hz.
        rewrite sort_insert_Permutation in Hz.
        apply elem_of_cons in Hz as [->|Hz]; [unfold key_le; lia|].
        rewrite Forall_forall in Hy. by apply Hy.
    + constructor; [by constructor|].
      constructor; [unfold key_le; lia|].
      eapply Forall_impl; [exact Hy|]. unfold key_le. intros z Hz. lia.
Qed.

Lemma Array_sort_sorted l :
  (forall x y, x ∈ l -> y ∈ l -> comparefn x y = Some (key x - key y)) ->
  StronglySorted (key_le key) (Array_sort comparefn l).
Proof.
  induction l as [|x l IH]; intros Hc; simpl; [constructor|].
  apply sort_insert_sorted.
  - intros y Hy. apply Hc; [by left|].
    apply elem_of_cons in Hy as [->|Hy]; [set_solver|].
    apply elem_of_cons. right. by rewrite Array_sort_Permutation in Hy.
  - apply IH. intros y z Hy Hz. apply Hc; set_solver.
Qed.


End ArraySortFacts.

(** ** Rotation engine *)

Lemma checkPair_lookup sortedLegs conflicts i current next :
  sortedLegs !! i = Some current ->
  sortedLegs !! S i = Some next ->
  checkPair sortedLegs conflicts i = conflicts ++ pushed current next.
Proof.
  intros Hi HSi. unfold pushed, checkPair. rewrite Hi, HSi. simpl.
  destruct (negb (String.eqb (destination current) (origin next)));
    destruct (jsint_gt (parseTime (schedArr current)) (parseTime (schedDep next)));
    try destruct (jsint_lt (jsint_sub (parseTime (schedDep next))
                                      (parseTime (schedArr current))) (Some MCT_MINUTES));
    simpl; rewrite <- ?app_assoc, ?app_nil_r; done.
Qed.

Lemma fold_checkPair_from pre l conflicts :
  fold_left (checkPair (pre ++ l)) (seq (length pre) (length l - 1)) conflicts
  = conflicts ++ flat_map (fun p => pushed p.1 p.2) (adjacentPairs l).
Proof.
  revert pre conflicts. induction l as [|current [|next l] IH]; intros pre conflicts.
  - simpl. by rewrite app_nil_r.
  - simpl. by rewrite app_nil_r.
  - replace (length (current :: next :: l) - 1)%nat with (S (length (next :: l) - 1))
      by (simpl; lia).
    cbn [seq fold_left].
    rewrite (checkPair_lookup _ _ _ current next).
    + specialize (IH (pre ++ [current]) (conflicts ++ pushed current next)).
      rewrite <- app_assoc, length_app in IH. simpl in IH.
      rewrite Nat.add_1_r in IH. simpl. rewrite Nat.sub_0_r in *.
      rewrite IH. unfold adjacentPairs. simpl. by rewrite <- app_assoc.
    + by rewrite lookup_app_r, Nat.sub_diag by lia.
    + rewrite lookup_app_r by lia. by replace (S (length pre) - length pre)%nat with 1%nat by lia.
Qed.

Lemma checkPairs_flat_map sortedLegs :
  checkPairs sortedLegs
  = flat_map (fun p => pushed p.1 p.2) (adjacentPairs sortedLegs).
Proof. apply (fold_checkPair_from [] sortedLegs []). Qed.

(** On well-formed legs an iteration pushes what the specification asks. *)
Lemma pushed_pairConflicts current next :
  wellFormedLeg current -> wellFormedLeg next ->
  pushed current next = pairConflicts (current, next).
Proof.
  intros [_ Ha] [Hd _]. unfold pushed, checkPair, pairConflicts. simpl.
  rewrite (parseTime_minuteOf _ Ha), (parseTime_minuteOf _ Hd).
  fold (arrMinute current) (depMinute next). unfold jsint_gt. simpl.
  destruct (String.eqb_spec (destination current) (origin next)) as [E|E];
    destruct (decide (destination current = origin next)); try done; simpl.
  all: destruct (Z.ltb_spec (depMinute next) (arrMinute current));
    destruct (decide (arrMinute current > depMinute next)); try lia; try done.
  all: unfold MCT_MINUTES;
    destruct (Z.ltb_spec (depMinute next - arrMinute current) 45);
    destruct (decide (depMinute next - arrMinute current < 45)); try lia; done.
Qed.

Lemma adjacentPairs_elem {A} (l : list A) (x y : A) :
  (x, y) ∈ adjacentPairs l -> x ∈ l /\ y ∈ l.
Proof.
  unfold adjacentPairs. intros Hin. split.
  - eapply elem_of_zip_l in Hin. done.
  - eapply elem_of_zip_r in Hin. destruct l; [by apply elem_of_nil in Hin|].
    simpl in Hin. set_solver.
Qed.

Lemma flat_map_ext_elem {A B} (f g : A -> list B) (l : list A) :
  (forall x, x ∈ l -> f x = g x) -> flat_map f l = flat_map g l.
Proof.
  induction l as [|x l IH]; intros Hfg; [done|]. simpl.
  rewrite Hfg by set_solver. rewrite IH; [done|]. intros; apply Hfg; set_solver.
Qed.

Lemma byDeparture_wellFormed (legs : list FlightLeg) x y :
  Forall wellFormedLeg legs -> x ∈ legs -> y ∈ legs ->
  byDeparture x y = Some (depMinute x - depMinute y).
Proof.
  rewrite Forall_forall. intros Hwf Hx Hy.
  destruct (Hwf x Hx) as [Hdx _], (Hwf y Hy) as [Hdy _].
  unfold byDeparture. by rewrite (parseTime_minuteOf _ Hdx), (parseTime_minuteOf _ Hdy).
Qed.



(** The third scenario of the specification's test list: A to B 08:00-10:00
    followed by C to D 09:00-11:00 gives the location mismatch and the
    overlap, both on the second leg, and no MCT warning. *)
Example validateRotation_mismatch_and_overlap :
  validateRotation [leg "1" "A" "B" "08:00" "10:00"; leg "2" "C" "D" "09:00" "11:00"]
  = {| isValid := false;
       conflicts :=
         [ {| legId := "2"; reason := "Location mismatch: Arr B != Dep C";
              severity := ERROR |};
           {| legId := "2";
              reason := "Schedule Overlap: Arrives 10:00, Departs 09:00";
              severity := ERROR |} ] |}.
Proof. reflexivity. Qed.

Example validateRotation_mct_warning :
  validateRotation [leg "1" "A" "B" "08:00" "10:00"; leg "2" "B" "A" "10:20" "15:30"]
  = {| isValid := false;
       conflicts :=
         [ {| legId := "2";
              reason := "MCT Violation: Only 20 min available (Req: 45)";
              severity := WARNING |} ] |}.
Proof. reflexivity. Qed.

Example validateRotation_valid :
  validateRotation [leg "1" "A" "B" "08:00" "10:00"; leg "2" "B" "A" "11:30" "15:30"]
  = {| isValid := true; conflicts := [] |}.
Proof. reflexivity. Qed.

(** C2.  The result is valid exactly when no conflict was reported: any
    conflict, of either severity, makes it invalid.  A list of zero or one
    leg gives the valid result with no conflict; the function is total, so
    there is nothing to fault on. *)
Theorem validateRotation_isValid (legs : list FlightLeg) :
  (isValid (validateRotation legs) = true <-> conflicts (validateRotation legs) = [])
  /\ (forall c, c ∈ conflicts (validateRotation legs) ->
       isValid (validateRotation legs) = false)
  /\ ((length legs <= 1)%nat ->
      validateRotation legs = {| isValid := true; conflicts := [] |}).
Proof.
  split; [|split].
  - unfold validateRotation, validateSorted. simpl.
    destruct (checkPairs _); simpl; split; done.
  - unfold validateRotation, validateSorted. simpl.
    destruct (checkPairs _); simpl; [by intros c ?%elem_of_nil|done].
  - intros Hlen. destruct legs as [|x [|y legs]]; [done|done|simpl in Hlen; lia].
Qed.

Lemma validateRotation_isValid_witness :
  (length [leg "1" "A" "B" "25:99" "xx"] <= 1)%nat
  /\ validateRotation [leg "1" "A" "B" "25:99" "xx"]
     = {| isValid := true; conflicts := [] |}.
Proof.
  split; [simpl; lia|].
  apply (proj2 (proj2 (validateRotation_isValid [leg "1" "A" "B" "25:99" "xx"]))).
  simpl; lia.
Defined.

(** ** The caller's array *)

Lemma fresh_loc_unused (h : heap) : h !! fresh (dom h) = None.
Proof. apply not_elem_of_dom, is_fresh. Qed.

(** C7.  Run on the store, the validator returns what [validateRotation]
    computes from the contents of the caller's array, and every array that
    existed before the call, the caller's among them, holds the same elements
    in the same order afterwards: only the fresh copy is sorted. *)
Theorem validateRotation_frame (h : heap) (legs : loc) (items : list FlightLeg) :
  h !! legs = Some items ->
  exists h',
    validateRotation_heap legs h = Some (validateRotation items, h')
    /\ h' !! legs = Some items
    /\ (forall l other, h !! l = Some other -> h' !! l = Some other).
Proof.
  intros Hlegs. unfold validateRotation_heap, spread, sort_in_place.
  rewrite Hlegs. set (copy := fresh (dom h)).
  assert (Hcopy : h !! copy = None) by apply fresh_loc_unused.
  rewrite lookup_insert_eq. rewrite lookup_insert_eq.
  eexists. split; [reflexivity|].
  assert (Hframe : forall l other, h !! l = Some other ->
            <[copy := Array_sort byDeparture items]> (<[copy := items]> h) !! l
            = Some other).
  { intros l other Hl.
    assert (copy <> l) by congruence.
    by rewrite !lookup_insert_ne. }
  split; [by apply Hframe|exact Hframe].
Qed.

Lemma validateRotation_frame_witness :
  let items := [leg "2" "B" "A" "11:30" "15:30"; leg "1" "A" "B" "08:00" "10:00"] in
  let h : heap := {[ 1%positive := items ]} in
  h !! 1%positive = Some items
  /\ exists h', validateRotation_heap 1%positive h = Some (validateRotation items, h')
                /\ h' !! 1%positive = Some items.
Proof.
  intros items h. split; [reflexivity|].
  destruct (validateRotation_frame h 1%positive items eq_refl) as (h' & Hrun & Hsame & _).
  exists h'. split; assumption.
Defined.

(** ** binary64 literals *)

(** The decimal literals of the source denote these binary64 values, which
    also are what a JavaScript engine reads them as. *)
Example float_lit_values :
  map float_lit [0.1; 0.2; 0.3; 0.4; 0.5; 0.05; 0.99; 0.015; 0.08; 0.15; 0.8; 1.1;
                 0.6; 0.25]%Q
  = [0x1.999999999999ap-4; 0x1.999999999999ap-3; 0x1.3333333333333p-2;
     0x1.999999999999ap-2; 0x1p-1; 0x1.999999999999ap-5; 0x1.fae147ae147aep-1;
     0x1.eb851eb851eb8p-7; 0x1.47ae147ae147bp-4; 0x1.3333333333333p-3;
     0x1.999999999999ap-1; 0x1.199999999999ap+0; 0x1.3333333333333p-1;
     0x1p-2]%float.
Proof. reflexivity. Qed.

Example float_lit_integers :
  map float_lit [0; 1; 5; 15; 24; 30; 60; 100; 1000; 3600; 10000]%Q
  = [0; 1; 5; 15; 24; 30; 60; 100; 1000; 3600; 10000]%float.
Proof. reflexivity. Qed.

(** ** The order of binary64 values *)

Lemma SFcompare_rank x y :
  SFcompare x y
  = match SFrank x, SFrank y with
    | Some a, Some b => Some (rank_cmp a b)
    | _, _ => None
    end.
Proof.
  destruct x as [[]| []| |[] mx ex], y as [[]| []| |[] my ey]; try reflexivity;
    unfold rank_cmp; simpl; f_equal.
  all: rewrite ?Pos.compare_cont_spec; simpl.
  all: destruct (Z.compare_spec ex ey), (Z.compare_spec (- ex) (- ey));
    try lia; try done; by destruct (mx ?= my)%positive.
Qed.

Lemma rank_cmp_spec (a b : Z * Z * Z) :
  match rank_cmp a b with
  | Lt => rank_lt a b
  | Eq => a = b
  | Gt => rank_lt b a
  end.
Proof.
  destruct a as [[a1 a2] a3], b as [[b1 b2] b3]. unfold rank_cmp, rank_lt. simpl.
  destruct (Z.compare_spec a1 b1), (Z.compare_spec a2 b2), (Z.compare_spec a3 b3);
    subst; try done; lia.
Qed.

Lemma ltb_ranks (x y : float) a b :
  float_rank x = Some a -> float_rank y = Some b ->
  PrimFloat.ltb x y = true <-> rank_lt a b.
Proof.
  unfold float_rank. intros Hx Hy.
  rewrite FloatAxioms.ltb_spec. unfold SFltb. rewrite SFcompare_rank, Hx, Hy.
  pose proof (rank_cmp_spec a b) as Hc. revert Hc.
  destruct a as [[a1 a2] a3], b as [[b1 b2] b3].
  destruct (rank_cmp _ _); unfold rank_lt; simpl; intros Hc; split; try done.
  - injection Hc as -> -> ->. lia.
  - lia.
Qed.

Lemma leb_ranks (x y : float) a b :
  float_rank x = Some a -> float_rank y = Some b ->
  PrimFloat.leb x y = true <-> rank_le a b.
Proof.
  unfold float_rank. intros Hx Hy.
  rewrite FloatAxioms.leb_spec. unfold SFleb. rewrite SFcompare_rank, Hx, Hy.
  pose proof (rank_cmp_spec a b) as Hc. revert Hc.
  destruct a as [[a1 a2] a3], b as [[b1 b2] b3].
  destruct (rank_cmp _ _); unfold rank_lt, rank_le; simpl; intros Hc; split; try done.
  - injection Hc as -> -> ->. lia.
  - lia.
  - lia.
Qed.

Lemma ltb_number (x y : float) :
  PrimFloat.ltb x y = true -> exists a b, float_rank x = Some a /\ float_rank y = Some b.
Proof.
  rewrite FloatAxioms.ltb_spec. unfold SFltb, float_rank. rewrite SFcompare_rank.
  destruct (SFrank (Prim2SF x)), (SFrank (Prim2SF y)); try done. eauto.
Qed.

Lemma leb_number (x y : float) :
  PrimFloat.leb x y = true -> exists a b, float_rank x = Some a /\ float_rank y = Some b.
Proof.
  rewrite FloatAxioms.leb_spec. unfold SFleb, float_rank. rewrite SFcompare_rank.
  destruct (SFrank (Prim2SF x)), (SFrank (Prim2SF y)); try done. eauto.
Qed.

Lemma is_number_rank (x : float) : is_number x <-> exists a, float_rank x = Some a.
Proof.
  unfold is_number, PrimFloat.is_nan.
  rewrite negb_false_iff, FloatAxioms.eqb_spec.
  unfold SFeqb, float_rank. rewrite SFcompare_rank.
  destruct (SFrank (Prim2SF x)) as [a|]; [|split; [done|by intros [? ?]]].
  split; [eauto|intros _]. pose proof (rank_cmp_spec a a) as Hc. revert Hc.
  destruct a as [[a1 a2] a3]. destruct (rank_cmp _ _); unfold rank_lt; simpl; [done|lia|lia].
Qed.

Lemma ltb_nan_l (x y : float) : float_rank x = None -> PrimFloat.ltb x y = false.
Proof.
  intros Hx. apply not_true_iff_false. intros (a & b & E & _)%ltb_number. congruence.
Qed.

Lemma ltb_nan_r (x y : float) : float_rank y = None -> PrimFloat.ltb x y = false.
Proof.
  intros Hy. apply not_true_iff_false. intros (a & b & _ & E)%ltb_number. congruence.
Qed.

Lemma leb_nan_l (x y : float) : float_rank x = None -> PrimFloat.leb x y = false.
Proof.
  intros Hx. apply not_true_iff_false. intros (a & b & E & _)%leb_number. congruence.
Qed.

Lemma leb_nan_r (x y : float) : float_rank y = None -> PrimFloat.leb x y = false.
Proof.
  intros Hy. apply not_true_iff_false. intros (a & b & _ & E)%leb_number. congruence.
Qed.

(** Comparisons between values of known rank become integer arithmetic. *)
Ltac find_rank := first [eassumption | vm_compute; reflexivity].

Ltac float_order :=
  repeat match goal with
  | H : PrimFloat.ltb ?x ?y = true |- _ =>
      apply (ltb_ranks x y _ _ ltac:(find_rank) ltac:(find_rank)) in H
  | H : PrimFloat.leb ?x ?y = true |- _ =>
      apply (leb_ranks x y _ _ ltac:(find_rank) ltac:(find_rank)) in H
  | H : PrimFloat.ltb ?x ?y = false |- _ =>
      apply not_true_iff_false in H;
      rewrite (ltb_ranks x y _ _ ltac:(find_rank) ltac:(find_rank)) in H
  | H : PrimFloat.leb ?x ?y = false |- _ =>
      apply not_true_iff_false in H;
      rewrite (leb_ranks x y _ _ ltac:(find_rank) ltac:(find_rank)) in H
  | |- PrimFloat.ltb ?x ?y = true =>
      apply (ltb_ranks x y _ _ ltac:(find_rank) ltac:(find_rank))
  | |- PrimFloat.leb ?x ?y = true =>
      apply (leb_ranks x y _ _ ltac:(find_rank) ltac:(find_rank))
  end;
  unfold rank_lt, rank_le in *; simpl in *.

Lemma ltb_leb_trans (x y z : float) :
  PrimFloat.ltb x y = true -> PrimFloat.leb y z = true -> PrimFloat.ltb x z = true.
Proof.
  intros Hxy Hyz.
  destruct (ltb_number _ _ Hxy) as ([[a1 a2] a3] & [[b1 b2] b3] & Ha & Hb).
  destruct (leb_number _ _ Hyz) as (? & [[c1 c2] c3] & _ & Hc).
  float_order. lia.
Qed.

Lemma ltb_trans (x y z : float) :
  PrimFloat.ltb x y = true -> PrimFloat.ltb y z = true -> PrimFloat.ltb x z = true.
Proof.
  intros Hxy Hyz.
  destruct (ltb_number _ _ Hxy) as ([[a1 a2] a3] & [[b1 b2] b3] & Ha & Hb).
  destruct (ltb_number _ _ Hyz) as (? & [[c1 c2] c3] & _ & Hc).
  float_order. lia.
Qed.

(** ** Finite case analysis by computation *)

Lemma forall_bool_sound (P : bool -> bool) :
  forall_bool P = true -> forall b, P b = true.
Proof. unfold forall_bool. intros [? ?]%andb_true_iff []; done. Qed.

Lemma forall_weather_sound (P : WeatherCondition -> bool) :
  forall_weather P = true -> forall w, P w = true.
Proof.
  unfold forall_weather.
  intros [[[[? ?]%andb_true_iff ?]%andb_true_iff ?]%andb_true_iff ?]%andb_true_iff [];
    done.
Qed.

(** ** Delay risk *)

(** The score depends on the input only through the tests that are made. *)
Lemma calculateDelayRisk_flags {N} `{JsNumber N} (input : DelayInput N) :
  calculateDelayRisk input
  = delayScoreOf
      (jsint_gt (parseTime (schedDepTime input)) (Some 1000))
      (jsint_gt (parseTime (schedDepTime input)) (Some 720))
      (num_gt (prevDelayMinutes input) (lit 60))
      (num_gt (prevDelayMinutes input) (lit 15))
      (weatherCondition input)
      (String.eqb (aircraftType input) "B737-MAX"
       || String.eqb (aircraftType input) "A321neo").
Proof. reflexivity. Qed.

Lemma delayRisk_flags {N} `{JsNumber N} (minute : Z) (input : DelayInput N) :
  delayRisk minute input
  = delayRuleOf (1000 <? minute) (720 <? minute)
      (num_gt (prevDelayMinutes input) (lit 60))
      (num_gt (prevDelayMinutes input) (lit 15))
      (weatherCondition input)
      (String.eqb (aircraftType input) "B737-MAX"
       || String.eqb (aircraftType input) "A321neo").
Proof.
  unfold delayRisk, delayRuleOf, timePenalty, cascadePenalty, typeDiscount.
  destruct (String.eqb_spec (aircraftType input) "B737-MAX"),
    (String.eqb_spec (aircraftType input) "A321neo");
    destruct (decide _) as [|Hn]; try done; exfalso; tauto.
Qed.

(** *** On binary64 *)

Lemma delayScoreOf_rule_table :
  forall_bool (fun a => forall_bool (fun b => forall_bool (fun c =>
  forall_bool (fun d => forall_weather (fun w => forall_bool (fun t =>
    PrimFloat.Leibniz.eqb (delayScoreOf a b c d w t) (delayRuleOf a b c d w t)))))))
  = true.
Proof. vm_compute. reflexivity. Qed.

Lemma delayScoreOf_range_table :
  forall_bool (fun a => forall_bool (fun b => forall_bool (fun c =>
  forall_bool (fun d => forall_weather (fun w => forall_bool (fun t =>
    PrimFloat.leb 0 (delayScoreOf a b c d w t)
    && PrimFloat.leb (delayScoreOf a b c d w t) (float_lit 0.99)
    && PrimFloat.ltb (delayScoreOf a b c d w t) 1))))))
  = true.
Proof. vm_compute. reflexivity. Qed.

(** Raising the inbound delay can only switch its two tests on. *)
Lemma delayScoreOf_monotone_table :
  forall_bool (fun a => forall_bool (fun b => forall_weather (fun w =>
  forall_bool (fun t =>
  forall_bool (fun c1 => forall_bool (fun d1 =>
  forall_bool (fun c2 => forall_bool (fun d2 =>
    implb (implb c1 c2 && implb d1 d2)
      (PrimFloat.leb (delayScoreOf a b c1 d1 w t) (delayScoreOf a b c2 d2 w t))))))))))
  = true.
Proof. vm_compute. reflexivity. Qed.

Ltac at_flag T x :=
  first [ apply forall_bool_sound with (b := x) in T
        | apply forall_weather_sound with (w := x) in T ].

Lemma delayScoreOf_rule (a b c d : bool) (w : WeatherCondition) (t : bool) :
  delayScoreOf a b c d w t = delayRuleOf (N := float) a b c d w t.
Proof.
  pose proof delayScoreOf_rule_table as T.
  at_flag T a. at_flag T b. at_flag T c. at_flag T d. at_flag T w. at_flag T t.
  by apply FloatAxioms.Leibniz.eqb_spec in T.
Qed.

Lemma delayScoreOf_range (a b c d : bool) (w : WeatherCondition) (t : bool) :
  PrimFloat.leb 0 (delayScoreOf a b c d w t) = true
  /\ PrimFloat.leb (delayScoreOf a b c d w t) (float_lit 0.99) = true
  /\ PrimFloat.ltb (delayScoreOf a b c d w t) 1 = true.
Proof.
  pose proof delayScoreOf_range_table as T.
  at_flag T a. at_flag T b. at_flag T c. at_flag T d. at_flag T w. at_flag T t.
  by apply andb_true_iff in T as [[? ?]%andb_true_iff ?].
Qed.

Lemma delayScoreOf_monotone (a b : bool) (w : WeatherCondition) (t c1 d1 c2 d2 : bool) :
  (c1 = true -> c2 = true) -> (d1 = true -> d2 = true) ->
  PrimFloat.leb (delayScoreOf a b c1 d1 w t) (delayScoreOf a b c2 d2 w t) = true.
Proof.
  intros Hc Hd. pose proof delayScoreOf_monotone_table as T.
  at_flag T a. at_flag T b. at_flag T w. at_flag T t.
  at_flag T c1. at_flag T d1. at_flag T c2. at_flag T d2.
  destruct c1, c2, d1, d2; simpl in T; try done;
    (discriminate (Hc eq_refl)) || (discriminate (Hd eq_refl)).
Qed.

(** C3.  With a well-formed departure time HH:MM the delay score is the
    clamped sum of the specification, the operations taken from left to right
    in binary64: 0.10, the time-of-day penalty for the minute of day
    60 HH + MM, the cascading-delay penalty, the weather penalty, less the
    discount of the two newer types.  For every input whatsoever the score
    lies in [0, 0.99] and is below 1. *)
Theorem calculateDelayRisk_rule :
  (forall (input : DelayInput float) (h m : Z),
     0 <= h <= 23 -> 0 <= m <= 59 -> schedDepTime input = clock h m ->
     calculateDelayRisk input = delayRisk (h * 60 + m) input)
  /\ (forall input : DelayInput float,
       (lit 0 <= calculateDelayRisk input)%js = true
       /\ (calculateDelayRisk input <= lit 0.99)%js = true
       /\ (calculateDelayRisk input < lit 1)%js = true).
Proof.
  split.
  - intros input h m Hh Hm Hs. rewrite calculateDelayRisk_flags, delayRisk_flags.
    rewrite Hs, (proj2 (parseTime_clock h m Hh Hm)). apply delayScoreOf_rule.
  - intros input. rewrite calculateDelayRisk_flags. apply delayScoreOf_range.
Qed.

Lemma calculateDelayRisk_rule_witness :
  let input : DelayInput float :=
    {| schedDepTime := "17:05"; prevDelayMinutes := lit 20;
       aircraftType := "A321neo"; weatherCondition := FOG |} in
  0 <= 17 <= 23 /\ 0 <= 5 <= 59 /\ schedDepTime input = clock 17 5
  /\ calculateDelayRisk input = delayRisk 1025 input.
Proof.
  intros input. split; [lia|]. split; [lia|]. split; [reflexivity|].
  apply (proj1 calculateDelayRisk_rule input 17 5); [lia|lia|reflexivity].
Defined.

(** C8.  Holding the other fields fixed, a larger inbound delay never gives
    a smaller delay score (binary64 order; the departure time need not even
    be well-formed). *)
Theorem calculateDelayRisk_monotone (input : DelayInput float) (d1 d2 : float) :
  (d1 <= d2)%js = true ->
  (calculateDelayRisk (withDelay input d1)
   <= calculateDelayRisk (withDelay input d2))%js = true.
Proof.
  intros Hle. rewrite !calculateDelayRisk_flags. simpl.
  apply delayScoreOf_monotone; intros Hlt; exact (ltb_leb_trans _ _ _ Hlt Hle).
Qed.

Lemma calculateDelayRisk_monotone_witness :
  let input : DelayInput float :=
    {| schedDepTime := "13:30"; prevDelayMinutes := lit 0;
       aircraftType := "B737-800"; weatherCondition := RAIN |} in
  (lit 15 <= lit 61)%js = true
  /\ (calculateDelayRisk (withDelay input (lit 15))
      <= calculateDelayRisk (withDelay input (lit 61)))%js = true.
Proof.
  intros input. split; [reflexivity|].
  exact (calculateDelayRisk_monotone input (lit 15) (lit 61) eq_refl).
Defined.

(** ** Risk-level classifiers on binary64 *)

Lemma classifiers_agree_on_numbers (score : float) :
  is_number score ->
  levelOfLabel (RiskBadge_riskLabel score) = calculateRiskLevel score
  /\ canonicalLevel score = Some (calculateRiskLevel score).
Proof.
  intros ([[k1 k2] k3] & Hk)%is_number_rank.
  unfold RiskBadge_riskLabel, calculateRiskLevel, canonicalLevel, num_gt, num_ge. simpl.
  destruct (PrimFloat.ltb (float_lit 0.6) score) eqn:Hhigh,
    (PrimFloat.leb (float_lit 0.25) score) eqn:Hmed,
    (PrimFloat.ltb score (float_lit 0.25)) eqn:Hlow,
    (PrimFloat.leb score (float_lit 0.6)) eqn:Hmid;
    simpl; try (split; reflexivity); exfalso; float_order; lia.
Qed.

(** On NaN every comparison fails: the badge falls through to its initial
    label and the page's function to its last [return]. *)
Lemma classifiers_on_nan :
  RiskBadge_riskLabel PrimFloat.nan = LOW
  /\ calculateRiskLevel PrimFloat.nan = high
  /\ canonicalLevel PrimFloat.nan = None.
Proof. repeat split. Qed.

(** ** Tail-swap optimizer *)

Section SwapFacts.
Context {N : Type} `{JsNumber N}.
Local Open Scope js_scope.

Lemma riskierAndHeavier_test (riskX riskY : N) (loadX loadY : nat) :
  (riskX > riskY) && (loadY <? loadX)%nat = true
  <-> riskierAndHeavier riskX riskY loadX loadY.
Proof.
  unfold riskierAndHeavier. rewrite andb_true_iff, Nat.ltb_lt. tauto.
Qed.

Lemma optimizeTailSwap_scores (env : DateEnv N)
    (ac1 : Aircraft N) (legs1 : list FlightLeg)
    (ac2 : Aircraft N) (legs2 : list FlightLeg) :
  let swap := optimizeTailSwap env ac1 legs1 ac2 legs2 in
  let baseRiskA := calculateMaintenanceRisk env ac1 in
  let baseRiskB := calculateMaintenanceRisk env ac2 in
  (riskScoreA swap, riskScoreB swap)
  = swapScores baseRiskA baseRiskB (length legs1) (length legs2)
  /\ improvement swap
     = (baseRiskA + baseRiskB - (riskScoreA swap + riskScoreB swap)) * lit 100.
Proof.
  intros swap baseRiskA baseRiskB. subst swap.
  unfold optimizeTailSwap, swapScores. fold baseRiskA baseRiskB.
  pose proof (riskierAndHeavier_test baseRiskA baseRiskB (length legs1) (length legs2)) as H1.
  pose proof (riskierAndHeavier_test baseRiskB baseRiskA (length legs2) (length legs1)) as H2.
  destruct ((baseRiskA > baseRiskB) && (length legs2 <? length legs1)%nat);
    [|destruct ((baseRiskB > baseRiskA) && (length legs1 <? length legs2)%nat)];
    simpl; repeat case_decide; try (split; reflexivity); exfalso;
    intuition discriminate.
Qed.

Lemma swapScores_equal_load (riskA riskB : N) (load : nat) :
  swapScores riskA riskB load load = (riskA, riskB).
Proof.
  unfold swapScores, riskierAndHeavier.
  repeat (case_decide; try (exfalso; intuition lia)). done.
Qed.

Lemma optimizeTailSwap_recommendation (env : DateEnv N)
    (ac1 : Aircraft N) (legs1 : list FlightLeg)
    (ac2 : Aircraft N) (legs2 : list FlightLeg) :
  let swap := optimizeTailSwap env ac1 legs1 ac2 legs2 in
  feasible swap
  = isValid (validateRotation legs2) && isValid (validateRotation legs1)
  /\ recommendation swap = recommendationFor (feasible swap) (improvement swap).
Proof.
  intros swap. split; [reflexivity|].
  unfold recommendationFor.
  change (recommendation swap)
    with (if negb (feasible swap) then "Swap not feasible due to rotation conflicts."
          else if improvement swap > lit 5
          then "STRONG RECOMMENDATION: Swap tails to mitigate maintenance risk on tight rotation."
          else if improvement swap > lit 0 then "Marginal benefit. Swap at discretion."
          else "Keep current assignment.").
  destruct (feasible swap), (improvement swap > lit 5), (improvement swap > lit 0);
    simpl; repeat case_decide; done.
Qed.
End SwapFacts.

(** ** Exact arithmetic *)

Lemma Qlt_bool_iff (a b : Q) : Qlt_bool a b = true <-> (a < b)%Q.
Proof.
  unfold Qlt_bool. rewrite Qlt_alt. destruct (a ?= b)%Q; split; done.
Qed.

Lemma Qlt_bool_false (a b : Q) : Qlt_bool a b = false <-> (b <= a)%Q.
Proof.
  rewrite <- not_true_iff_false, Qlt_bool_iff. split; [apply Qnot_lt_le|apply Qle_not_lt].
Qed.

Lemma Qle_bool_false (a b : Q) : Qle_bool a b = false <-> (b < a)%Q.
Proof.
  rewrite <- not_true_iff_false, Qle_bool_iff. split; [apply Qnot_le_lt|apply Qlt_not_le].
Qed.

(** Turn the tests of the exact instance into order facts. *)
Ltac exact_order :=
  unfold num_gt, num_ge, num_lt, num_le, Q_JsNumber in *;
  repeat match goal with
  | H : Qlt_bool _ _ = true |- _ => apply Qlt_bool_iff in H
  | H : Qlt_bool _ _ = false |- _ => apply Qlt_bool_false in H
  | H : Qle_bool _ _ = true |- _ => apply Qle_bool_iff in H
  | H : Qle_bool _ _ = false |- _ => apply Qle_bool_false in H
  | |- Qlt_bool _ _ = true => apply Qlt_bool_iff
  | |- Qlt_bool _ _ = false => apply Qlt_bool_false
  | |- Qle_bool _ _ = true => apply Qle_bool_iff
  | |- Qle_bool _ _ = false => apply Qle_bool_false
  end.

Lemma clamp_exact_range (lo hi x : Q) :
  (lo <= hi)%Q -> (lo <= clamp lo hi x <= hi)%Q.
Proof.
  intros Hlh. unfold clamp, Math_min, Math_max, Q_JsNumber.
  destruct (Qlt_bool x lo) eqn:E1.
  - destruct (Qlt_bool lo hi) eqn:E2; exact_order; lra.
  - destruct (Qlt_bool x hi) eqn:E2; exact_order; lra.
Qed.

Lemma clamp_exact_proper (lo hi x y : Q) :
  (x == y)%Q -> (clamp lo hi x == clamp lo hi y)%Q.
Proof.
  intros Hxy. unfold clamp, Math_min, Math_max, Q_JsNumber.
  destruct (Qlt_bool x lo) eqn:E1, (Qlt_bool y lo) eqn:E2;
    try (exact_order; lra).
  destruct (Qlt_bool x hi) eqn:E3, (Qlt_bool y hi) eqn:E4; exact_order; lra.
Qed.

Lemma calculateMaintenanceRisk_exact_clamp (env : DateEnv Q) (ac : Aircraft Q) :
  exists risk : Q, calculateMaintenanceRisk env ac = clamp (lit 0) (lit 1) risk.
Proof. unfold calculateMaintenanceRisk, clamp. eauto. Qed.

Lemma calculateMaintenanceRisk_exact_range (env : DateEnv Q) (ac : Aircraft Q) :
  (0 <= calculateMaintenanceRisk env ac <= 1)%Q.
Proof.
  destruct (calculateMaintenanceRisk_exact_clamp env ac) as [risk ->].
  apply clamp_exact_range. simpl. lra.
Qed.

(** The code's day count is the day count of the rule: 1000 * 3600 * 24 is
    86400000. *)
Lemma daysSinceMaint_daysBetween_exact (env : DateEnv Q) (ac : Aircraft Q) :
  num_gt (daysSinceMaint env ac) (lit 30)
  = num_lt (lit 30) (daysBetween (Date_getTime env (lastMaintenance ac)) (Date_now env)).
Proof. reflexivity. Qed.

Lemma calculateMaintenanceRisk_exact_rule (env : DateEnv Q) (ac : Aircraft Q) :
  (calculateMaintenanceRisk env ac == maintenanceRisk env ac)%Q.
Proof.
  unfold calculateMaintenanceRisk, maintenanceRisk, overduePenalty.
  apply clamp_exact_proper.
  rewrite (daysSinceMaint_daysBetween_exact env ac).
  destruct (num_lt (lit 30) (daysBetween _ _)); simpl; lra.
Qed.

Lemma classifiers_agree_exact (score : Q) :
  levelOfLabel (RiskBadge_riskLabel score) = calculateRiskLevel score
  /\ canonicalLevel score = Some (calculateRiskLevel score).
Proof.
  unfold RiskBadge_riskLabel, calculateRiskLevel, canonicalLevel. simpl.
  destruct (Qlt_bool 0.6 score) eqn:Hhigh, (Qle_bool 0.25 score) eqn:Hmed,
    (Qlt_bool score 0.25) eqn:Hlow, (Qle_bool score 0.6) eqn:Hmid;
    simpl; try (split; reflexivity); exfalso; exact_order; lra.
Qed.

Lemma riskierAndHeavier_exact (riskX riskY : Q) (loadX loadY : nat) :
  riskierAndHeavier riskX riskY loadX loadY <-> (riskY < riskX)%Q /\ (loadY < loadX)%nat.
Proof. unfold riskierAndHeavier, num_gt. simpl. by rewrite Qlt_bool_iff. Qed.

(** C10.  In exact arithmetic the improvement is never negative; it is
    strictly positive exactly when one aircraft has both the strictly higher
    base maintenance risk and strictly more legs than the other, and it is 0
    in every other case.  So no swap, feasible or not, is scored as making
    things worse: the new total risk never exceeds the base total. *)
Theorem optimizeTailSwap_improvement_exact (env : DateEnv Q)
    (ac1 : Aircraft Q) (legs1 : list FlightLeg)
    (ac2 : Aircraft Q) (legs2 : list FlightLeg) :
  let swap := optimizeTailSwap env ac1 legs1 ac2 legs2 in
  let baseRiskA := calculateMaintenanceRisk env ac1 in
  let baseRiskB := calculateMaintenanceRisk env ac2 in
  let oneIsRiskierAndHeavier :=
    ((baseRiskB < baseRiskA)%Q /\ (length legs2 < length legs1)%nat)
    \/ ((baseRiskA < baseRiskB)%Q /\ (length legs1 < length legs2)%nat) in
  (0 <= improvement swap)%Q
  /\ ((0 < improvement swap)%Q <-> oneIsRiskierAndHeavier)
  /\ (oneIsRiskierAndHeavier \/ (improvement swap == 0)%Q)
  /\ (riskScoreA swap + riskScoreB swap <= baseRiskA + baseRiskB)%Q.
Proof.
  intros swap baseRiskA baseRiskB oneIs.
  destruct (optimizeTailSwap_scores env ac1 legs1 ac2 legs2) as [Hscores Himp].
  fold swap baseRiskA baseRiskB in Hscores, Himp.
  pose proof (calculateMaintenanceRisk_exact_range env ac1) as HA.
  pose proof (calculateMaintenanceRisk_exact_range env ac2) as HB.
  fold baseRiskA in HA. fold baseRiskB in HB.
  rewrite Himp. clear Himp. subst oneIs.
  remember (riskScoreA swap) as rA eqn:EA. remember (riskScoreB swap) as rB eqn:EB.
  clear EA EB. unfold swapScores in Hscores. simpl.
  destruct (decide (riskierAndHeavier baseRiskA baseRiskB _ _)) as [H1|H1];
    [|destruct (decide (riskierAndHeavier baseRiskB baseRiskA _ _)) as [H2|H2]];
    rewrite riskierAndHeavier_exact in *;
    injection Hscores as -> ->; simpl.
  - split; [lra|]. split; [|split; [tauto|lra]]. split; [tauto|lra].
  - split; [lra|]. split; [|split; [tauto|lra]]. split; [tauto|lra].
  - split; [lra|]. split; [|split; [right; lra|lra]]. split; [lra|tauto].
Qed.

(** ** Maintenance risk on binary64 *)

Lemma float_max_number (a b : float) :
  is_number a -> is_number b ->
  (float_max a b = a \/ float_max a b = b)
  /\ PrimFloat.leb a (float_max a b) = true
  /\ PrimFloat.leb b (float_max a b) = true.
Proof.
  intros Ha Hb. unfold float_max. rewrite Ha, Hb. simpl.
  apply is_number_rank in Ha as [[[a1 a2] a3] Ka].
  apply is_number_rank in Hb as [[[b1 b2] b3] Kb].
  destruct (PrimFloat.ltb a b) eqn:Hab; [|destruct (PrimFloat.ltb b a) eqn:Hba];
    [| |destruct (PrimFloat.is_zero a && PrimFloat.get_sign a)].
  all: split; [tauto|]; split; float_order; lia.
Qed.

Lemma float_min_number (a b : float) :
  is_number a -> is_number b ->
  (float_min a b = a \/ float_min a b = b)
  /\ PrimFloat.leb (float_min a b) a = true
  /\ PrimFloat.leb (float_min a b) b = true.
Proof.
  intros Ha Hb. unfold float_min. rewrite Ha, Hb. simpl.
  apply is_number_rank in Ha as [[[a1 a2] a3] Ka].
  apply is_number_rank in Hb as [[[b1 b2] b3] Kb].
  destruct (PrimFloat.ltb a b) eqn:Hab; [|destruct (PrimFloat.ltb b a) eqn:Hba];
    [| |destruct (PrimFloat.is_zero a && PrimFloat.get_sign a)].
  all: split; [tauto|]; split; float_order; lia.
Qed.

(** The clamp of a number lies between the bounds. *)
Lemma clamp_float_range (lo hi x : float) :
  PrimFloat.leb lo hi = true -> is_number x ->
  PrimFloat.leb lo (clamp lo hi x) = true /\ PrimFloat.leb (clamp lo hi x) hi = true.
Proof.
  intros Hlh Hx. unfold clamp. simpl.
  destruct (leb_number _ _ Hlh) as ([[l1 l2] l3] & [[h1 h2] h3] & Kl & Kh).
  assert (Hlo : is_number lo) by (apply is_number_rank; eauto).
  assert (Hhi : is_number hi) by (apply is_number_rank; eauto).
  destruct (float_max_number x lo Hx Hlo) as (Hmax & _ & Hge).
  assert (Hm : is_number (float_max x lo)) by (destruct Hmax as [-> | ->]; done).
  destruct (float_min_number (float_max x lo) hi Hm Hhi) as (Hmin & _ & Hle).
  split; [|exact Hle].
  destruct Hmin as [-> | ->]; [exact Hge|exact Hlh].
Qed.

(** The clamp of NaN is NaN. *)
Lemma clamp_float_nan (lo hi x : float) :
  PrimFloat.is_nan x = true -> clamp lo hi x = PrimFloat.nan.
Proof. intros Hx. unfold clamp. simpl. unfold float_max. by rewrite Hx. Qed.

(** *** Rounding keeps the sign *)

Section Rounding.
Variables prec emax : Z.

Lemma shr_1_nonneg mrs : 0 <= shr_m mrs -> 0 <= shr_m (shr_1 mrs).
Proof. destruct mrs as [[|[p|p|]|p] r s]; simpl; lia. Qed.

Lemma iter_pos_invariant {A} (P : A -> Prop) (f : A -> A) :
  (forall x, P x -> P (f x)) -> forall n x, P x -> P (SpecFloat.iter_pos f n x).
Proof.
  intros Hf. induction n as [n IH|n IH|]; intros x Hx; simpl; auto.
Qed.

Lemma shr_fexp_nonneg m e l :
  0 <= m -> 0 <= shr_m (shr_fexp prec emax m e l).1.
Proof.
  intros Hm. unfold shr_fexp, shr.
  assert (H0 : 0 <= shr_m (shr_record_of_loc m l)) by (destruct l as [|[]]; exact Hm).
  destruct (fexp prec emax (Zdigits2 m + e) - e); simpl; try exact H0.
  apply (iter_pos_invariant (fun mrs => 0 <= shr_m mrs)); [apply shr_1_nonneg|exact H0].
Qed.

Lemma round_nearest_even_nonneg m l : 0 <= m -> 0 <= round_nearest_even m l.
Proof.
  intros Hm. destruct l as [|[]]; simpl; try lia. destruct (Z.even m); lia.
Qed.

Lemma binary_round_aux_nonneg mx ex lx :
  0 <= mx -> SFnonneg (binary_round_aux prec emax false mx ex lx).
Proof.
  intros Hm. unfold binary_round_aux.
  pose proof (shr_fexp_nonneg mx ex lx Hm) as H1.
  destruct (shr_fexp prec emax mx ex lx) as [mrs' e']. simpl in H1.
  pose proof (shr_fexp_nonneg _ e' loc_Exact
                (round_nearest_even_nonneg _ (loc_of_shr_record mrs') H1)) as H2.
  destruct (shr_fexp prec emax _ e' loc_Exact) as [mrs'' e'']. simpl in H2.
  destruct (shr_m mrs'') as [|m|m]; [done| |lia].
  by destruct (e'' <=? emax - prec).
Qed.

Lemma binary_round_nonneg mx ex : SFnonneg (binary_round prec emax false mx ex).
Proof.
  unfold binary_round. destruct (shl_align _ _ _) as [mz ez].
  by apply binary_round_aux_nonneg.
Qed.

Lemma SFmul_nonneg x y :
  SFnonneg x -> SFpositive y -> SFnonneg (SFmul prec emax x y).
Proof.
  destruct x as [sx|[]| |[] mx ex], y as [sy|sy| |[] my ey]; try done; simpl; intros _ _;
    try done.
  by apply binary_round_aux_nonneg.
Qed.

Lemma SFdiv_nonneg x y :
  SFnonneg x -> SFpositive y -> SFnonneg (SFdiv prec emax x y).
Proof.
  destruct x as [sx|[]| |[] mx ex], y as [sy|sy| |[] my ey]; try done; simpl; intros _ _;
    try done.
  unfold SFdiv_core_binary.
  set (m' := match _ - _ - _ with Z0 => _ | Zpos _ => _ | Zneg _ => _ end).
  assert (Hm' : 0 <= m').
  { subst m'. destruct (_ - _ - _); try lia. apply Z.shiftl_nonneg. lia. }
  pose proof (Z_div_mod m' (Zpos my) eq_refl) as Hdiv.
  destruct (Z.div_eucl m' (Zpos my)) as [q r].
  apply binary_round_aux_nonneg. nia.
Qed.

Lemma SFadd_nonneg x y :
  SFnonneg x -> SFnonneg y -> SFnonneg (SFadd prec emax x y).
Proof.
  destruct x as [sx|[]| |[] mx ex], y as [sy|[]| |[] my ey]; try done; simpl; intros _ _;
    try done.
  - by destruct sx, sy.
  - apply binary_round_nonneg.
Qed.
End Rounding.

(** *** Non-negative numbers *)

Lemma leb_zero_nonneg (x : float) :
  PrimFloat.leb 0 x = true <-> SFnonneg (Prim2SF x).
Proof.
  rewrite FloatAxioms.leb_spec. change (Prim2SF 0) with (S754_zero false).
  destruct (Prim2SF x) as [s|[]| |[] m e]; simpl; split; done.
Qed.

Lemma nonneg_is_number (x : float) : SFnonneg (Prim2SF x) -> is_number x.
Proof.
  intros Hx. apply is_number_rank. unfold float_rank.
  destruct (Prim2SF x) as [s|[]| |[] m e]; simpl in *; try done; eauto.
Qed.

Lemma float_mul_nonneg (x c : float) :
  SFnonneg (Prim2SF x) -> SFpositive (Prim2SF c) -> SFnonneg (Prim2SF (x * c)%float).
Proof. rewrite FloatAxioms.mul_spec. apply SFmul_nonneg. Qed.

Lemma float_div_nonneg (x c : float) :
  SFnonneg (Prim2SF x) -> SFpositive (Prim2SF c) -> SFnonneg (Prim2SF (x / c)%float).
Proof. rewrite FloatAxioms.div_spec. apply SFdiv_nonneg. Qed.

Lemma float_add_nonneg (x y : float) :
  SFnonneg (Prim2SF x) -> SFnonneg (Prim2SF y) -> SFnonneg (Prim2SF (x + y)%float).
Proof. rewrite FloatAxioms.add_spec. apply SFadd_nonneg. Qed.

(** Adding +0 changes nothing but the sign of -0. *)
Lemma float_add_zero (x : float) :
  (x + 0)%float = x \/ (x = (-0)%float /\ (x + 0)%float = 0%float).
Proof.
  pose proof (FloatAxioms.add_spec x 0) as Hadd.
  change (Prim2SF 0) with (S754_zero false) in Hadd.
  destruct (Prim2SF x) as [[]|s| |s m e] eqn:Ex; simpl in Hadd.
  - right. split; apply Prim2SF_inj; [by rewrite Ex|by rewrite Hadd].
  - left. apply Prim2SF_inj. by rewrite Hadd, Ex.
  - left. apply Prim2SF_inj. by rewrite Hadd, Ex.
  - left. apply Prim2SF_inj. by rewrite Hadd, Ex.
  - left. apply Prim2SF_inj. by rewrite Hadd, Ex.
Qed.

Lemma clamp_float_add_zero (hi x : float) :
  clamp 0%float hi (x + 0)%float = clamp 0%float hi x.
Proof.
  destruct (float_add_zero x) as [-> | [-> ->]]; [done|].
  unfold clamp. simpl. by change (float_max (-0) 0) with (float_max 0 0).
Qed.

(** The accumulated risk of an aircraft with non-negative age, cycles and
    snag count is a non-negative number. *)
Lemma accumulated_risk_nonneg (age cyc snags : float) (overdue : bool) :
  PrimFloat.leb 0 age = true -> PrimFloat.leb 0 cyc = true ->
  PrimFloat.leb 0 snags = true ->
  let risk := (float_lit 0.05 + age * float_lit 0.015
               + cyc / float_lit 10000 * float_lit 0.1
               + snags * float_lit 0.08)%float in
  SFnonneg (Prim2SF (if overdue then (risk + float_lit 0.15)%float else risk)).
Proof.
  intros Hage%leb_zero_nonneg Hcyc%leb_zero_nonneg Hsnag%leb_zero_nonneg risk.
  assert (Hrisk : SFnonneg (Prim2SF risk)).
  { subst risk. repeat apply float_add_nonneg.
    - exact I.
    - by apply float_mul_nonneg.
    - apply float_mul_nonneg; [|exact I]. by apply float_div_nonneg.
    - by apply float_mul_nonneg. }
  destruct overdue; [|exact Hrisk].
  apply float_add_nonneg; [exact Hrisk|exact I].
Qed.

(** The code's day count is the day count of the rule: in binary64,
    1000 * 3600 * 24 is 86400000 exactly. *)
Lemma daysSinceMaint_daysBetween (env : DateEnv float) (ac : Aircraft float) :
  num_gt (daysSinceMaint env ac) (lit 30)
  = num_lt (lit 30) (daysBetween (Date_getTime env (lastMaintenance ac)) (Date_now env)).
Proof. reflexivity. Qed.

(** C4.  On binary64 the maintenance risk is the clamped sum of the
    specification, taken from left to right: 0.05, 0.015 per year of age,
    0.10 per 10000 cycles, 0.08 per snag, and 0.15 when more than 30 days lie
    between the last maintenance and the evaluation instant, the days being
    the milliseconds between the two over 86400000; for an aircraft
    whose age, cycles and snag count are non-negative it lies in [0, 1].  In
    exact arithmetic the same rule holds and the result lies in [0, 1] for
    every aircraft. *)
Theorem calculateMaintenanceRisk_rule :
  (forall (env : DateEnv float) (ac : Aircraft float),
     calculateMaintenanceRisk env ac = maintenanceRisk env ac)
  /\ (forall (env : DateEnv float) (ac : Aircraft float),
        (lit 0 <= ageYears ac)%js = true ->
        (lit 0 <= cycles ac)%js = true ->
        (lit 0 <= snagCount ac)%js = true ->
        (lit 0 <= calculateMaintenanceRisk env ac)%js = true
        /\ (calculateMaintenanceRisk env ac <= lit 1)%js = true)
  /\ (forall (env : DateEnv Q) (ac : Aircraft Q),
        (calculateMaintenanceRisk env ac == maintenanceRisk env ac)%Q
        /\ (0 <= calculateMaintenanceRisk env ac <= 1)%Q).
Proof.
  split; [|split].
  - intros env ac. unfold calculateMaintenanceRisk, maintenanceRisk, overduePenalty.
    rewrite (daysSinceMaint_daysBetween env ac).
    destruct (num_lt (lit 30) (daysBetween _ _)); [reflexivity|].
    symmetry. apply (clamp_float_add_zero 1).
  - intros env ac Hage Hcyc Hsnag.
    apply (clamp_float_range 0 1); [reflexivity|].
    apply nonneg_is_number.
    exact (accumulated_risk_nonneg _ _ _ (num_gt (daysSinceMaint env ac) (lit 30))
             Hage Hcyc Hsnag).
  - intros env ac. split.
    + apply calculateMaintenanceRisk_exact_rule.
    + apply calculateMaintenanceRisk_exact_range.
Qed.

Lemma calculateMaintenanceRisk_rule_witness :
  let env : DateEnv float := sampleEnv in
  let ac : Aircraft float := AC_A in
  (lit 0 <= ageYears ac)%js = true
  /\ (lit 0 <= cycles ac)%js = true
  /\ (lit 0 <= snagCount ac)%js = true
  /\ (lit 0 <= calculateMaintenanceRisk env ac)%js = true
  /\ (calculateMaintenanceRisk env ac <= lit 1)%js = true
  /\ daysBetween (Date_getTime env (lastMaintenance ac)) (Date_now env) = lit 45
  /\ calculateMaintenanceRisk env ac = lit 0.765.
Proof.
  intros env ac.
  split; [reflexivity|]. split; [reflexivity|]. split; [reflexivity|].
  destruct (proj1 (proj2 calculateMaintenanceRisk_rule) env ac eq_refl eq_refl eq_refl)
    as [Hlo Hhi].
  split; [exact Hlo|]. split; [exact Hhi|]. split; [reflexivity|].
  exact (eq_trans (proj1 calculateMaintenanceRisk_rule env ac)
           (eq_refl : maintenanceRisk env ac = lit 0.765)).
Defined.

(** A field that is NaN makes the result NaN: the ordering tests of the
    clamp all fail on it. *)
Example calculateMaintenanceRisk_nan :
  calculateMaintenanceRisk sampleEnv
    {| tailNumber := "TC-JNA"; type := "B737-800"; ageYears := PrimFloat.nan;
       cycles := lit 14500; lastMaintenance := "2023-10-01"; snagCount := lit 3 |}
  = PrimFloat.nan.
Proof. reflexivity. Qed.

(** ** Tail-swap optimizer on binary64 *)

Lemma ltb_irrefl (x : float) : PrimFloat.ltb x x = false.
Proof.
  destruct (float_rank x) as [[[k1 k2] k3]|] eqn:Hk; [|by apply ltb_nan_l].
  apply not_true_iff_false. intros Hlt. float_order. lia.
Qed.

(** C5.  The post-swap scores follow the decision table: when A is the
    riskier aircraft and has the heavier schedule, A's score is its base risk
    times 0.8 and B's is its base risk times 1.1; else, when B is, the mirror
    image; in every other case both are unchanged, in particular when the
    two base risks are equal or the two loads are equal.  The improvement is
    the base total less the new total, times 100. *)
Theorem optimizeTailSwap_decision_table (env : DateEnv float)
    (ac1 : Aircraft float) (legs1 : list FlightLeg)
    (ac2 : Aircraft float) (legs2 : list FlightLeg) :
  let swap := optimizeTailSwap env ac1 legs1 ac2 legs2 in
  let baseRiskA := calculateMaintenanceRisk env ac1 in
  let baseRiskB := calculateMaintenanceRisk env ac2 in
  (riskScoreA swap, riskScoreB swap)
  = swapScores baseRiskA baseRiskB (length legs1) (length legs2)
  /\ improvement swap
     = ((baseRiskA + baseRiskB - (riskScoreA swap + riskScoreB swap)) * lit 100)%js
  /\ (forall (risk : float) (loadA loadB : nat),
        swapScores risk risk loadA loadB = (risk, risk))
  /\ (forall (riskA riskB : float) (load : nat),
        swapScores riskA riskB load load = (riskA, riskB)).
Proof.
  intros swap baseRiskA baseRiskB.
  destruct (optimizeTailSwap_scores env ac1 legs1 ac2 legs2) as [Hscores Himp].
  split; [exact Hscores|]. split; [exact Himp|]. split.
  - intros risk loadA loadB. unfold swapScores, riskierAndHeavier, num_gt. simpl.
    rewrite ltb_irrefl. repeat case_decide; try done; exfalso; intuition discriminate.
  - apply swapScores_equal_load.
Qed.

(** C6.  The swap is feasible exactly when both rotations validate, and the
    recommendation is chosen by priority: infeasible first, whatever the
    improvement; then an improvement above 5; then an improvement above 0;
    otherwise the current assignment is kept. *)
Theorem optimizeTailSwap_recommendation_priority (env : DateEnv float)
    (ac1 : Aircraft float) (legs1 : list FlightLeg)
    (ac2 : Aircraft float) (legs2 : list FlightLeg) :
  let swap := optimizeTailSwap env ac1 legs1 ac2 legs2 in
  (feasible swap = true
   <-> isValid (validateRotation legs2) = true /\ isValid (validateRotation legs1) = true)
  /\ recommendation swap = recommendationFor (feasible swap) (improvement swap)
  /\ (forall improvement : float,
        recommendationFor false improvement
        = "Swap not feasible due to rotation conflicts.").
Proof.
  intros swap.
  destruct (optimizeTailSwap_recommendation env ac1 legs1 ac2 legs2) as [Hf Hr].
  split; [|split; [exact Hr|reflexivity]].
  fold swap in Hf. rewrite Hf. apply andb_true_iff.
Qed.

(** The scenario of the tail-swap page: the older aircraft flies three legs
    and the newer one two, both rotations validate, and the swap is strongly
    recommended. *)
Example optimizeTailSwap_page :
  let swap := optimizeTailSwap (N := float) sampleEnv AC_A LEGS_A AC_B LEGS_B in
  feasible swap = true
  /\ (improvement swap > lit 5)%js = true
  /\ recommendation swap
     = "STRONG RECOMMENDATION: Swap tails to mitigate maintenance risk on tight rotation.".
Proof. vm_compute. done. Qed.

(** ** Risk-level classifiers *)

(** C9.  The badge's rule and the page's [calculateRiskLevel] give the same
    level, which is the level of the canonical three-way rule, for every
    score that is a number (binary64) and for every score in exact
    arithmetic. *)
Theorem classifiers_agree :
  (forall score : float,
     is_number score ->
     levelOfLabel (RiskBadge_riskLabel score) = calculateRiskLevel score
     /\ canonicalLevel score = Some (calculateRiskLevel score))
  /\ (forall score : Q,
        levelOfLabel (RiskBadge_riskLabel score) = calculateRiskLevel score
        /\ canonicalLevel score = Some (calculateRiskLevel score)).
Proof.
  split.
  - apply classifiers_agree_on_numbers.
  - apply classifiers_agree_exact.
Qed.

Lemma classifiers_agree_witness :
  let score : float := lit 0.6 in
  is_number score
  /\ levelOfLabel (RiskBadge_riskLabel score) = calculateRiskLevel score
  /\ canonicalLevel score = Some medium.
Proof.
  intros score. split; [reflexivity|].
  exact (proj1 classifiers_agree score eq_refl).
Defined.

(** * Further properties *)

(** ** Clock values: round trip and malformed input *)

(** X1.  [parseTime] decodes what [clock] encodes: the clock value of hour
    [h] and minute [m] parses to [h * 60 + m], a well-formed clock value is
    the clock value of the quotient and remainder by 60 of what it parses to,
    and two well-formed clock values that parse alike are the same string. *)
Theorem parseTime_roundtrip :
  (forall h m, 0 <= h <= 23 -> 0 <= m <= 59 ->
     parseTime (clock h m) = Some (h * 60 + m))
  /\ (forall s, wellFormedTime s = true ->
        exists n, 0 <= n <= 1439 /\ parseTime s = Some n
                  /\ s = clock (n / 60) (n mod 60))
  /\ (forall s1 s2, wellFormedTime s1 = true -> wellFormedTime s2 = true ->
        parseTime s1 = parseTime s2 -> s1 = s2).
Proof.
  assert (Hdec : forall s, wellFormedTime s = true ->
            exists n, 0 <= n <= 1439 /\ parseTime s = Some n
                      /\ s = clock (n / 60) (n mod 60)).
  { intros s (h & m & Hh & Hm & Hs & Hp)%parseTime_wellFormed.
    exists (h * 60 + m). split; [lia|]. split; [exact Hp|].
    rewrite Hs at 1. f_equal; Z.div_mod_to_equations; lia. }
  split; [|split; [exact Hdec|]].
  - intros h m Hh Hm. apply parseTime_clock; assumption.
  - intros s1 s2 (n1 & _ & Hp1 & Hs1)%Hdec (n2 & _ & Hp2 & Hs2)%Hdec Heq.
    rewrite Hp1, Hp2 in Heq. injection Heq as Heq. rewrite Hs1, Hs2. by rewrite Heq.
Qed.

Lemma parseTime_roundtrip_witness :
  wellFormedTime "23:59" = true
  /\ exists n, 0 <= n <= 1439 /\ parseTime "23:59" = Some n
               /\ "23:59"%string = clock (n / 60) (n mod 60).
Proof.
  split; [reflexivity|].
  exact (proj1 (proj2 parseTime_roundtrip) "23:59"%string eq_refl).
Defined.

Lemma String_split_absent sep s : occurs sep s = false -> String_split sep s = [s].
Proof.
  induction s as [|c s IH]; simpl; [done|].
  intros [Hc Hs]%orb_false_iff. rewrite Hc. by rewrite (IH Hs).
Qed.

Lemma parseTime_one_piece s : occurs ":" s = false -> parseTime s = None.
Proof.
  intros Hs. unfold parseTime. by rewrite (String_split_absent _ _ Hs).
Qed.

(** X2.  A time written without a colon is NaN, whatever its characters:
    only one piece comes out of the split, [mm] is undefined, and the sum is
    not a number. *)
Theorem parseTime_without_colon s :
  occurs ":" s = false -> parseTime s = None.
Proof. apply parseTime_one_piece. Qed.

Lemma parseTime_without_colon_witness :
  occurs ":" "0830" = false /\ parseTime "0830" = None.
Proof.
  split; [reflexivity|]. exact (parseTime_without_colon "0830"%string eq_refl).
Defined.

(** ** Rotation engine: validity, order, size *)

Lemma conflicts_wellFormed (legs : list FlightLeg) :
  Forall wellFormedLeg legs ->
  conflicts (validateRotation legs)
  = flat_map pairConflicts (adjacentPairs (Array_sort byDeparture legs)).
Proof.
  intros Hwf. unfold validateRotation, validateSorted. simpl.
  rewrite checkPairs_flat_map. apply flat_map_ext_elem.
  intros [current next] [Hc Hn]%adjacentPairs_elem. simpl.
  rewrite Forall_forall in Hwf.
  apply pushed_pairConflicts; apply Hwf; by rewrite <- (Array_sort_Permutation byDeparture).
Qed.

Lemma isValid_no_conflict (legs : list FlightLeg) :
  isValid (validateRotation legs) = true <-> conflicts (validateRotation legs) = [].
Proof.
  unfold validateRotation, validateSorted. simpl.
  destruct (checkPairs _); simpl; split; done.
Qed.

Lemma flat_map_nil_iff {A B} (f : A -> list B) (l : list A) :
  flat_map f l = [] <-> Forall (fun x => f x = []) l.
Proof.
  induction l as [|x l IH]; simpl.
  - split; [constructor|done].
  - split.
    + intros [Hx Hl]%app_eq_nil. constructor; [done|by apply IH].
    + intros H. apply Forall_cons in H as [Hx Hl]. rewrite Hx. by apply IH.
Qed.

Lemma pairConflicts_nil pair : pairConflicts pair = [] <-> connects pair.
Proof.
  destruct pair as [current next]. unfold pairConflicts, connects. simpl.
  repeat case_decide; simpl; split; try done; try (intros [? ?]; done || lia).
  intros _. split; [done|lia].
Qed.

(** X3.  A rotation of well-formed legs is valid exactly when, in departure
    order, every leg starts where the previous one ended and leaves at least
    45 minutes after the previous one arrived. *)
Theorem validateRotation_valid_iff (legs : list FlightLeg) :
  Forall wellFormedLeg legs ->
  (isValid (validateRotation legs) = true
   <-> Forall connects (adjacentPairs (Array_sort byDeparture legs))).
Proof.
  intros Hwf. rewrite isValid_no_conflict, (conflicts_wellFormed legs Hwf).
  rewrite flat_map_nil_iff. apply Forall_iff. intros pair. apply pairConflicts_nil.
Qed.

Lemma validateRotation_valid_iff_witness :
  Forall wellFormedLeg LEGS_A
  /\ (isValid (validateRotation LEGS_A) = true
      <-> Forall connects (adjacentPairs (Array_sort byDeparture LEGS_A))).
Proof.
  assert (Hwf : Forall wellFormedLeg LEGS_A) by (repeat constructor).
  split; [exact Hwf|]. exact (validateRotation_valid_iff LEGS_A Hwf).
Defined.

Lemma filter_flat_map {A B} (P : B -> bool) (f : A -> list B) (l : list A) :
  List.filter P (flat_map f l) = flat_map (fun x => List.filter P (f x)) l.
Proof.
  induction l as [|x l IH]; simpl; [done|]. by rewrite List.filter_app, IH.
Qed.

Lemma pairConflicts_errors pair :
  List.filter isError (pairConflicts pair) = [] <-> flyable pair.
Proof.
  destruct pair as [current next]. unfold pairConflicts, flyable. simpl.
  repeat case_decide; simpl; split; try done; try (intros [? ?]; done || lia).
  all: intros _; split; [done|lia].
Qed.

(** X4.  The two severities separate the impossible from the tight: a
    rotation of well-formed legs draws no ERROR exactly when, in departure
    order, every leg starts where the previous one ended and does not leave
    before the previous one arrived. *)
Theorem validateRotation_errors_iff (legs : list FlightLeg) :
  Forall wellFormedLeg legs ->
  (List.filter isError (conflicts (validateRotation legs)) = []
   <-> Forall flyable (adjacentPairs (Array_sort byDeparture legs))).
Proof.
  intros Hwf. rewrite (conflicts_wellFormed legs Hwf), filter_flat_map.
  rewrite flat_map_nil_iff. apply Forall_iff. intros pair. apply pairConflicts_errors.
Qed.

Lemma validateRotation_errors_iff_witness :
  let legs := [leg "1" "A" "B" "08:00" "10:00"; leg "2" "B" "A" "10:20" "15:30"] in
  Forall wellFormedLeg legs
  /\ (List.filter isError (conflicts (validateRotation legs)) = []
      <-> Forall flyable (adjacentPairs (Array_sort byDeparture legs))).
Proof.
  intros legs.
  assert (Hwf : Forall wellFormedLeg legs) by (repeat constructor).
  split; [exact Hwf|]. exact (validateRotation_errors_iff legs Hwf).
Defined.

(** A list sorted by a key without repetition is determined by its
    elements. *)
Lemma sorted_unique {A} (key : A -> Z) (l1 l2 : list A) :
  StronglySorted (key_le key) l1 -> StronglySorted (key_le key) l2 ->
  Permutation l1 l2 -> NoDup (map key l1) -> l1 = l2.
Proof.
  intros Hs1. revert l2. induction Hs1 as [|x l1 Hs1 IH Hx]; intros l2 Hs2 Hperm Hnd.
  - by apply Permutation_nil in Hperm.
  - destruct Hs2 as [|y l2 Hs2 Hy].
    { symmetry in Hperm. by apply Permutation_nil in Hperm. }
    apply NoDup_cons in Hnd as [Hnx Hnd]. rewrite Forall_forall in Hx, Hy.
    assert (Hxy : x = y).
    { assert (Hyin : y ∈ x :: l1) by (rewrite Hperm; by left).
      assert (Hxin : x ∈ y :: l2) by (rewrite <- Hperm; by left).
      apply elem_of_cons in Hyin as [->|Hyin]; [done|].
      apply elem_of_cons in Hxin as [->|Hxin]; [done|].
      pose proof (Hx y Hyin) as H1. pose proof (Hy x Hxin) as H2.
      unfold key_le in H1, H2. exfalso. apply Hnx.
      replace (key x) with (key y) by lia. by apply list_elem_of_fmap_2. }
    subst y. f_equal. apply IH; [done| |done].
    by apply Permutation_cons_inv in Hperm.
Qed.

(** X5.  With well-formed legs whose departure minutes are pairwise
    different, the order in which the caller lists the legs does not matter:
    every rearrangement of the list validates to the same result. *)
Theorem validateRotation_order_independent (legs legs' : list FlightLeg) :
  Forall wellFormedLeg legs -> NoDup (map depMinute legs) -> Permutation legs legs' ->
  validateRotation legs' = validateRotation legs.
Proof.
  intros Hwf Hnd Hperm. unfold validateRotation. f_equal.
  assert (Hwf' : Forall wellFormedLeg legs') by (by rewrite <- Hperm).
  apply (sorted_unique depMinute).
  - apply (Array_sort_sorted byDeparture depMinute).
    intros x y. by apply byDeparture_wellFormed.
  - apply (Array_sort_sorted byDeparture depMinute).
    intros x y. by apply byDeparture_wellFormed.
  - by rewrite !Array_sort_Permutation.
  - rewrite (Array_sort_Permutation byDeparture legs'), <- Hperm. exact Hnd.
Qed.

Lemma validateRotation_order_independent_witness :
  let legs := LEGS_A in
  let legs' := rev LEGS_A in
  Forall wellFormedLeg legs /\ NoDup (map depMinute legs) /\ Permutation legs legs'
  /\ validateRotation legs' = validateRotation legs.
Proof.
  intros legs legs'.
  assert (Hwf : Forall wellFormedLeg legs) by (repeat constructor).
  assert (Hnd : NoDup (map depMinute legs))
    by (apply (bool_decide_eq_true_1 (NoDup (map depMinute legs))); vm_compute; reflexivity).
  assert (Hperm : Permutation legs legs') by apply Permutation_rev.
  split; [exact Hwf|]. split; [exact Hnd|]. split; [exact Hperm|].
  exact (validateRotation_order_independent legs legs' Hwf Hnd Hperm).
Defined.

(** ** Rotation engine: what is reported, whatever the clock values *)

Lemma pushed_legId current next c : c ∈ pushed current next -> legId c = id next.
Proof.
  unfold pushed, checkPair. simpl.
  destruct (negb (String.eqb (destination current) (origin next)));
    destruct (jsint_gt (parseTime (schedArr current)) (parseTime (schedDep next)));
    try destruct (jsint_lt (jsint_sub (parseTime (schedDep next))
                                      (parseTime (schedArr current))) (Some MCT_MINUTES));
    simpl; intros Hc;
    repeat (apply elem_of_cons in Hc as [->|Hc]; [done|]);
    by apply elem_of_nil in Hc.
Qed.

Lemma pushed_length current next : (length (pushed current next) <= 2)%nat.
Proof.
  unfold pushed, checkPair. simpl.
  destruct (negb (String.eqb (destination current) (origin next)));
    destruct (jsint_gt (parseTime (schedArr current)) (parseTime (schedDep next)));
    try destruct (jsint_lt (jsint_sub (parseTime (schedDep next))
                                      (parseTime (schedArr current))) (Some MCT_MINUTES));
    simpl; lia.
Qed.

Lemma adjacentPairs_length {A} (l : list A) :
  length (adjacentPairs l) = (length l - 1)%nat.
Proof.
  unfold adjacentPairs. destruct l as [|x l]; [done|]. simpl.
  rewrite Nat.sub_0_r. revert x. induction l as [|y l IH]; intros x; [done|].
  simpl. by rewrite IH.
Qed.

Lemma flat_map_length_bound {A B} (f : A -> list B) (k : nat) (l : list A) :
  (forall x, (length (f x) <= k)%nat) -> (length (flat_map f l) <= k * length l)%nat.
Proof.
  intros Hf. induction l as [|x l IH]; simpl; [lia|].
  rewrite length_app. specialize (Hf x). lia.
Qed.

(** The loop blames the later leg of a pair, whatever list it runs over. *)
Lemma checkPairs_later_leg (sortedLegs : list FlightLeg) (c : RotationConflict) :
  c ∈ checkPairs sortedLegs -> exists l, l ∈ tail sortedLegs /\ legId c = id l.
Proof.
  rewrite checkPairs_flat_map.
  intros Hc. apply list_elem_of_In, in_flat_map in Hc as [[current next] [Hp Hc]].
  apply list_elem_of_In in Hp, Hc. simpl in Hc.
  exists next. split.
  - exact (elem_of_zip_r _ _ _ _ Hp).
  - by apply (pushed_legId current).
Qed.

Lemma tail_elem {A} (l : list A) (x : A) : x ∈ tail l -> x ∈ l.
Proof. destruct l; simpl; [done|]. by right. Qed.

(** Every conflict names a leg of the list.  The sorted copy enters only as
    a rearrangement of the list. *)
Lemma conflict_names_leg (legs : list FlightLeg) (c : RotationConflict) :
  c ∈ conflicts (validateRotation legs) -> exists l, l ∈ legs /\ legId c = id l.
Proof.
  unfold validateRotation, validateSorted. simpl.
  intros (l & Hl & Hid)%checkPairs_later_leg. exists l. split; [|exact Hid].
  rewrite <- (Array_sort_Permutation byDeparture legs). by apply tail_elem.
Qed.

(** X6.  Whatever the legs contain, every reported conflict names a leg of
    the list: its [legId] is the [id] of one of the legs passed in.  For legs
    with well-formed clock values it is the later leg of a pair that is
    named: a leg that is not the first one in departure order. *)
Theorem validateRotation_conflict_ids (legs : list FlightLeg) (c : RotationConflict) :
  c ∈ conflicts (validateRotation legs) ->
  (exists l, l ∈ legs /\ legId c = id l)
  /\ (Forall wellFormedLeg legs ->
      exists l, l ∈ tail (Array_sort byDeparture legs) /\ legId c = id l
                /\ StronglySorted (key_le depMinute) (Array_sort byDeparture legs)).
Proof.
  intros Hc. split; [by apply conflict_names_leg|].
  intros Hwf. unfold validateRotation, validateSorted in Hc. simpl in Hc.
  apply checkPairs_later_leg in Hc as (l & Hl & Hid).
  exists l. split; [exact Hl|]. split; [exact Hid|].
  apply (Array_sort_sorted byDeparture depMinute).
  intros x y. by apply byDeparture_wellFormed.
Qed.

Lemma validateRotation_conflict_ids_witness :
  let legs := [leg "2" "CDG" "IST" "09:00" "11:00"; leg "1" "IST" "LHR" "08:00" "10:00"] in
  let c := locationMismatch (leg "1" "IST" "LHR" "08:00" "10:00")
                            (leg "2" "CDG" "IST" "09:00" "11:00") in
  c ∈ conflicts (validateRotation legs)
  /\ Forall wellFormedLeg legs
  /\ (exists l, l ∈ legs /\ legId c = id l)
  /\ (exists l, l ∈ tail (Array_sort byDeparture legs) /\ legId c = id l
                /\ StronglySorted (key_le depMinute) (Array_sort byDeparture legs)).
Proof.
  intros legs c.
  assert (Hc : c ∈ conflicts (validateRotation legs)) by (vm_compute; left).
  assert (Hwf : Forall wellFormedLeg legs) by (repeat constructor).
  split; [exact Hc|]. split; [exact Hwf|].
  destruct (validateRotation_conflict_ids legs c Hc) as [Hany Hlater].
  split; [exact Hany|]. exact (Hlater Hwf).
Defined.

(** X7.  A rotation of [n] legs gives at most [2 * (n - 1)] conflicts: at
    most two for each pair of neighbours, and none at all for an empty list
    or a single leg. *)
Theorem validateRotation_conflict_count (legs : list FlightLeg) :
  (length (conflicts (validateRotation legs)) <= 2 * (length legs - 1))%nat.
Proof.
  unfold validateRotation, validateSorted. simpl. rewrite checkPairs_flat_map.
  etransitivity.
  - apply (flat_map_length_bound _ 2). intros [current next]. apply pushed_length.
  - by rewrite adjacentPairs_length, Array_sort_length.
Qed.

(** When the comparator never says "greater", the sort leaves the list as it
    is. *)
Lemma Array_sort_unordered {A} (comparefn : A -> A -> jsint) (l : list A) :
  (forall x y, x ∈ l -> y ∈ l -> comparefn x y = None) ->
  Array_sort comparefn l = l.
Proof.
  induction l as [|x l IH]; intros Hcmp; [done|]. simpl.
  rewrite IH by (intros; apply Hcmp; by right).
  destruct l as [|y l]; [done|]. simpl. unfold comes_after.
  rewrite Hcmp; [done|by left|right; by left].
Qed.

Lemma pushed_colonFree current next :
  colonFree current -> colonFree next ->
  pushed current next = mismatchOnly (current, next).
Proof.
  intros [_ Ha] [Hd _]. unfold pushed, checkPair, mismatchOnly. simpl.
  rewrite (parseTime_one_piece _ Ha), (parseTime_one_piece _ Hd). simpl.
  destruct (String.eqb_spec (destination current) (origin next));
    case_decide; done.
Qed.

(** X8.  Legs whose clock values contain no colon have no minute of day: the
    validator then keeps the legs in the order given and makes neither the
    overlap nor the connection-time check, so the conflicts are exactly the
    location mismatches between neighbours of the list as passed in. *)
Theorem validateRotation_without_clock (legs : list FlightLeg) :
  Forall colonFree legs ->
  conflicts (validateRotation legs) = flat_map mismatchOnly (adjacentPairs legs).
Proof.
  intros Hfree. rewrite Forall_forall in Hfree.
  unfold validateRotation, validateSorted. simpl.
  rewrite Array_sort_unordered, checkPairs_flat_map.
  - apply flat_map_ext_elem. intros [current next] [Hc Hn]%adjacentPairs_elem.
    apply pushed_colonFree; by apply Hfree.
  - intros x y Hx Hy. unfold byDeparture.
    destruct (Hfree x Hx) as [Hdx _]. by rewrite (parseTime_one_piece _ Hdx).
Qed.

Lemma validateRotation_without_clock_witness :
  let legs := [leg "1" "IST" "LHR" "1700" "2200"; leg "2" "CDG" "IST" "0800" "0900"] in
  Forall colonFree legs
  /\ conflicts (validateRotation legs) = flat_map mismatchOnly (adjacentPairs legs).
Proof.
  intros legs.
  assert (Hfree : Forall colonFree legs) by (repeat constructor).
  split; [exact Hfree|]. exact (validateRotation_without_clock legs Hfree).
Defined.

(** ** Delay risk: bounds and order *)

Lemma delayScoreOf_floor_table :
  forall_bool (fun a => forall_bool (fun b => forall_bool (fun c =>
  forall_bool (fun d => forall_weather (fun w => forall_bool (fun t =>
    PrimFloat.leb (float_lit 0.05) (delayScoreOf a b c d w t)))))))
  = true.
Proof. vm_compute. reflexivity. Qed.

(** X9.  The delay score of any input, a NaN inbound delay and an unreadable
    departure time included, is at least 0.05: the lower bound 0 of the clamp
    is never reached. *)
Theorem calculateDelayRisk_floor (input : DelayInput float) :
  (lit 0.05 <= calculateDelayRisk input)%js = true.
Proof.
  rewrite calculateDelayRisk_flags.
  pose proof delayScoreOf_floor_table as T.
  repeat match goal with
  | |- context [delayScoreOf ?a ?b ?c ?d ?w ?t] =>
      at_flag T a; at_flag T b; at_flag T c; at_flag T d; at_flag T w; at_flag T t
  end.
  exact T.
Qed.

(** Switching the tests on the departure minute on can only raise the
    score. *)
Lemma delayScoreOf_time_table :
  forall_bool (fun c => forall_bool (fun d => forall_weather (fun w =>
  forall_bool (fun t =>
  forall_bool (fun a1 => forall_bool (fun b1 =>
  forall_bool (fun a2 => forall_bool (fun b2 =>
    implb (implb a1 a2 && implb b1 b2)
      (PrimFloat.leb (delayScoreOf a1 b1 c d w t) (delayScoreOf a2 b2 c d w t))))))))))
  = true.
Proof. vm_compute. reflexivity. Qed.

Lemma delayScoreOf_time (c d : bool) (w : WeatherCondition) (t a1 b1 a2 b2 : bool) :
  (a1 = true -> a2 = true) -> (b1 = true -> b2 = true) ->
  PrimFloat.leb (delayScoreOf a1 b1 c d w t) (delayScoreOf a2 b2 c d w t) = true.
Proof.
  intros Ha Hb. pose proof delayScoreOf_time_table as T.
  at_flag T c. at_flag T d. at_flag T w. at_flag T t.
  at_flag T a1. at_flag T b1. at_flag T a2. at_flag T b2.
  destruct a1, a2, b1, b2; simpl in T; try done;
    (discriminate (Ha eq_refl)) || (discriminate (Hb eq_refl)).
Qed.

(** X10.  Holding the other fields fixed, a later well-formed departure time
    never gives a smaller delay score. *)
Theorem calculateDelayRisk_later_departure (input : DelayInput float) (s1 s2 : string) :
  wellFormedTime s1 = true -> wellFormedTime s2 = true ->
  minuteOf s1 <= minuteOf s2 ->
  (calculateDelayRisk (withDepTime input s1)
   <= calculateDelayRisk (withDepTime input s2))%js = true.
Proof.
  intros H1 H2 Hle. rewrite !calculateDelayRisk_flags.
  cbn [withDepTime withWeather withType schedDepTime prevDelayMinutes aircraftType
       weatherCondition].
  rewrite (parseTime_minuteOf _ H1), (parseTime_minuteOf _ H2).
  unfold jsint_gt, jsint_lt.
  apply delayScoreOf_time; intros Hlt%Z.ltb_lt; apply Z.ltb_lt; lia.
Qed.

Lemma calculateDelayRisk_later_departure_witness :
  let input : DelayInput float :=
    {| schedDepTime := "08:00"; prevDelayMinutes := lit 20;
       aircraftType := "B737-800"; weatherCondition := RAIN |} in
  wellFormedTime "11:59" = true /\ wellFormedTime "16:41" = true
  /\ minuteOf "11:59" <= minuteOf "16:41"
  /\ (calculateDelayRisk (withDepTime input "11:59")
      <= calculateDelayRisk (withDepTime input "16:41"))%js = true.
Proof.
  intros input. split; [reflexivity|]. split; [reflexivity|].
  assert (Hle : minuteOf "11:59" <= minuteOf "16:41") by (vm_compute; discriminate).
  split; [exact Hle|].
  exact (calculateDelayRisk_later_departure input "11:59" "16:41" eq_refl eq_refl Hle).
Defined.

Lemma delayScoreOf_weather_table :
  forall_bool (fun a => forall_bool (fun b => forall_bool (fun c =>
  forall_bool (fun d => forall_bool (fun t =>
    PrimFloat.leb (delayScoreOf a b c d CLEAR t) (delayScoreOf a b c d RAIN t)
    && PrimFloat.leb (delayScoreOf a b c d RAIN t) (delayScoreOf a b c d FOG t)
    && PrimFloat.leb (delayScoreOf a b c d FOG t) (delayScoreOf a b c d SNOW t)
    && PrimFloat.leb (delayScoreOf a b c d SNOW t) (delayScoreOf a b c d STORM t))))))
  = true.
Proof. vm_compute. reflexivity. Qed.

(** X11.  Holding the other fields fixed, the delay score never decreases
    along CLEAR, RAIN, FOG, SNOW, STORM. *)
Theorem calculateDelayRisk_weather_order (input : DelayInput float) :
  (calculateDelayRisk (withWeather input CLEAR)
   <= calculateDelayRisk (withWeather input RAIN))%js = true
  /\ (calculateDelayRisk (withWeather input RAIN)
      <= calculateDelayRisk (withWeather input FOG))%js = true
  /\ (calculateDelayRisk (withWeather input FOG)
      <= calculateDelayRisk (withWeather input SNOW))%js = true
  /\ (calculateDelayRisk (withWeather input SNOW)
      <= calculateDelayRisk (withWeather input STORM))%js = true.
Proof.
  rewrite !calculateDelayRisk_flags.
  cbn [withDepTime withWeather withType schedDepTime prevDelayMinutes aircraftType
       weatherCondition].
  pose proof delayScoreOf_weather_table as T.
  repeat match goal with
  | |- context [delayScoreOf ?a ?b ?c ?d _ ?t] =>
      at_flag T a; at_flag T b; at_flag T c; at_flag T d; at_flag T t
  end.
  by apply andb_true_iff in T as [[[? ?]%andb_true_iff ?]%andb_true_iff ?].
Qed.

Lemma delayScoreOf_type_table :
  forall_bool (fun a => forall_bool (fun b => forall_bool (fun c =>
  forall_bool (fun d => forall_weather (fun w => forall_bool (fun t =>
    PrimFloat.leb (delayScoreOf a b c d w true) (delayScoreOf a b c d w t)))))))
  = true.
Proof. vm_compute. reflexivity. Qed.

Lemma delayScoreOf_type (a b c d : bool) (w : WeatherCondition) (t : bool) :
  PrimFloat.leb (delayScoreOf a b c d w true) (delayScoreOf a b c d w t) = true.
Proof.
  pose proof delayScoreOf_type_table as T.
  at_flag T a. at_flag T b. at_flag T c. at_flag T d. at_flag T w. at_flag T t.
  exact T.
Qed.

(** X12.  Holding the other fields fixed, no aircraft type scores below the
    two newer types "B737-MAX" and "A321neo". *)
Theorem calculateDelayRisk_newer_type (input : DelayInput float) (ty : string) :
  (calculateDelayRisk (withType input "B737-MAX")
   <= calculateDelayRisk (withType input ty))%js = true
  /\ (calculateDelayRisk (withType input "A321neo")
      <= calculateDelayRisk (withType input ty))%js = true.
Proof.
  rewrite !calculateDelayRisk_flags.
  cbn [withType schedDepTime prevDelayMinutes aircraftType weatherCondition].
  split; exact (delayScoreOf_type _ _ _ _ _ _).
Qed.

(** X13.  A departure time without a colon gets no time-of-day penalty: it
    is scored like a departure at midnight. *)
Theorem calculateDelayRisk_without_clock {N} `{JsNumber N} (input : DelayInput N) (s : string) :
  occurs ":" s = false ->
  calculateDelayRisk (withDepTime input s) = calculateDelayRisk (withDepTime input "00:00").
Proof.
  intros Hs. rewrite !calculateDelayRisk_flags.
  cbn [withDepTime withWeather withType schedDepTime prevDelayMinutes aircraftType
       weatherCondition].
  by rewrite (parseTime_one_piece _ Hs).
Qed.

Lemma calculateDelayRisk_without_clock_witness :
  let input : DelayInput float :=
    {| schedDepTime := "08:00"; prevDelayMinutes := lit 0;
       aircraftType := "B737-800"; weatherCondition := CLEAR |} in
  occurs ":" "1830" = false
  /\ calculateDelayRisk (withDepTime input "1830")
     = calculateDelayRisk (withDepTime input "00:00").
Proof.
  intros input. split; [reflexivity|].
  exact (calculateDelayRisk_without_clock input "1830" eq_refl).
Defined.

(** ** Maintenance risk: NaN and the bounds *)

Lemma is_nan_Prim2SF (x : float) : PrimFloat.is_nan x = true <-> Prim2SF x = S754_nan.
Proof.
  split.
  - intros Hnan. destruct (Prim2SF x) as [s|s| |s m e] eqn:Ex; [| |done|]; exfalso.
    all: assert (Hnum : is_number x)
           by (apply is_number_rank; unfold float_rank; rewrite Ex;
               try destruct s; simpl; eauto).
    all: unfold is_number in Hnum; congruence.
  - intros Ex. destruct (PrimFloat.is_nan x) eqn:Hnan; [done|].
    apply is_number_rank in Hnan as [a Ha]. unfold float_rank in Ha.
    by rewrite Ex in Ha.
Qed.

Lemma float_add_nan_l (x y : float) :
  PrimFloat.is_nan x = true -> PrimFloat.is_nan (x + y)%float = true.
Proof.
  rewrite !is_nan_Prim2SF, FloatAxioms.add_spec. by intros ->.
Qed.

Lemma float_add_nan_r (x y : float) :
  PrimFloat.is_nan y = true -> PrimFloat.is_nan (x + y)%float = true.
Proof.
  rewrite !is_nan_Prim2SF, FloatAxioms.add_spec. intros ->.
  by destruct (Prim2SF x).
Qed.

Lemma float_sub_nan_r (x y : float) :
  PrimFloat.is_nan y = true -> PrimFloat.is_nan (x - y)%float = true.
Proof.
  rewrite !is_nan_Prim2SF, FloatAxioms.sub_spec. intros ->.
  by destruct (Prim2SF x).
Qed.

Lemma float_mul_nan_l (x y : float) :
  PrimFloat.is_nan x = true -> PrimFloat.is_nan (x * y)%float = true.
Proof.
  rewrite !is_nan_Prim2SF, FloatAxioms.mul_spec. by intros ->.
Qed.

Lemma float_div_nan_l (x y : float) :
  PrimFloat.is_nan x = true -> PrimFloat.is_nan (x / y)%float = true.
Proof.
  rewrite !is_nan_Prim2SF, FloatAxioms.div_spec. by intros ->.
Qed.

Lemma ltb_is_nan_r (x y : float) :
  PrimFloat.is_nan y = true -> PrimFloat.ltb x y = false.
Proof.
  intros Hy%is_nan_Prim2SF. apply ltb_nan_r. unfold float_rank. by rewrite Hy.
Qed.

(** X14.  Whatever the aircraft record and the clock are, the maintenance
    risk is either NaN or a number between 0 and 1: no value outside the
    clamp can come out. *)
Theorem calculateMaintenanceRisk_never_outside (env : DateEnv float) (ac : Aircraft float) :
  PrimFloat.is_nan (calculateMaintenanceRisk env ac) = true
  \/ ((lit 0 <= calculateMaintenanceRisk env ac)%js = true
      /\ (calculateMaintenanceRisk env ac <= lit 1)%js = true).
Proof.
  unfold calculateMaintenanceRisk. cbv zeta.
  match goal with |- context [Math_max ?r (lit 0)] => set (risk := r) end.
  change (Math_min (Math_max risk (lit 0)) (lit 1)) with (clamp (lit 0) (lit 1) risk).
  destruct (PrimFloat.is_nan risk) eqn:Hrisk.
  - left. by rewrite (clamp_float_nan _ _ _ Hrisk).
  - right. by apply clamp_float_range.
Qed.

(** X15.  An aircraft record whose age, cycles or snag count is NaN has the
    maintenance risk NaN, and the badge that displays this risk shows it as
    LOW. *)
Theorem calculateMaintenanceRisk_nan_field (env : DateEnv float) (ac : Aircraft float) :
  PrimFloat.is_nan (ageYears ac) = true
  \/ PrimFloat.is_nan (cycles ac) = true
  \/ PrimFloat.is_nan (snagCount ac) = true ->
  PrimFloat.is_nan (calculateMaintenanceRisk env ac) = true
  /\ RiskBadge_riskLabel (calculateMaintenanceRisk env ac) = LOW.
Proof.
  intros Hnan.
  assert (Hres : calculateMaintenanceRisk env ac = PrimFloat.nan).
  { unfold calculateMaintenanceRisk. cbv zeta.
    match goal with |- context [Math_max ?r (lit 0)] => set (risk := r) end.
    change (Math_min (Math_max risk (lit 0)) (lit 1)) with (clamp (lit 0) (lit 1) risk).
    apply clamp_float_nan. subst risk.
    assert (Hsum : PrimFloat.is_nan
              (lit 0.05 + ageYears ac * lit 0.015 + cycles ac / lit 10000 * lit 0.1
               + snagCount ac * lit 0.08)%js = true).
    { simpl. destruct Hnan as [Hage|[Hcyc|Hsnag]].
      - do 2 apply float_add_nan_l. apply float_add_nan_r. by apply float_mul_nan_l.
      - apply float_add_nan_l, float_add_nan_r. by apply float_mul_nan_l, float_div_nan_l.
      - apply float_add_nan_r. by apply float_mul_nan_l. }
    destruct (num_gt _ _); [|exact Hsum].
    by apply float_add_nan_l. }
  rewrite Hres. by split.
Qed.

Lemma calculateMaintenanceRisk_nan_field_witness :
  let ac : Aircraft float :=
    {| tailNumber := "TC-JND"; type := "A321neo"; ageYears := lit 15;
       cycles := PrimFloat.nan; lastMaintenance := "2023-09-15"; snagCount := lit 5 |} in
  (PrimFloat.is_nan (ageYears ac) = true
   \/ PrimFloat.is_nan (cycles ac) = true
   \/ PrimFloat.is_nan (snagCount ac) = true)
  /\ PrimFloat.is_nan (calculateMaintenanceRisk sampleEnv ac) = true
  /\ RiskBadge_riskLabel (calculateMaintenanceRisk sampleEnv ac) = LOW.
Proof.
  intros ac.
  assert (Hnan : PrimFloat.is_nan (ageYears ac) = true
                 \/ PrimFloat.is_nan (cycles ac) = true
                 \/ PrimFloat.is_nan (snagCount ac) = true) by (right; left; reflexivity).
  split; [exact Hnan|]. exact (calculateMaintenanceRisk_nan_field sampleEnv ac Hnan).
Defined.

(** X16.  A last-maintenance date that the platform cannot read (its time
    value is NaN) never counts as overdue: the result is the clamped sum of
    the base and the age, cycle and snag terms, without the 0.15. *)
Theorem calculateMaintenanceRisk_invalid_date (env : DateEnv float) (ac : Aircraft float) :
  PrimFloat.is_nan (Date_getTime env (lastMaintenance ac)) = true ->
  calculateMaintenanceRisk env ac
  = clamp (lit 0) (lit 1)
      (lit 0.05 + ageYears ac * lit 0.015 + cycles ac / lit 10000 * lit 0.1
       + snagCount ac * lit 0.08)%js.
Proof.
  intros Hdate. unfold calculateMaintenanceRisk, daysSinceMaint, num_gt. simpl.
  rewrite ltb_is_nan_r; [done|].
  by apply float_div_nan_l, float_sub_nan_r.
Qed.

Lemma calculateMaintenanceRisk_invalid_date_witness :
  let ac : Aircraft float :=
    {| tailNumber := "TC-JNE"; type := "A320-200"; ageYears := lit 8;
       cycles := lit 9500; lastMaintenance := "last spring"; snagCount := lit 3 |} in
  PrimFloat.is_nan (Date_getTime sampleEnv (lastMaintenance ac)) = true
  /\ calculateMaintenanceRisk sampleEnv ac
     = clamp (lit 0) (lit 1)
         (lit 0.05 + ageYears ac * lit 0.015 + cycles ac / lit 10000 * lit 0.1
          + snagCount ac * lit 0.08)%js.
Proof.
  intros ac. split; [reflexivity|].
  exact (calculateMaintenanceRisk_invalid_date sampleEnv ac eq_refl).
Defined.

(** ** Tail-swap optimizer: symmetry, and when nothing is to be gained *)

Section SwapSymmetry.
Context {N : Type} `{JsNumber N}.
Local Open Scope js_scope.

(** The decision table does not care which aircraft is called A. *)
Lemma swapScores_mirror (riskA riskB : N) (loadA loadB : nat) :
  swapScores riskB riskA loadB loadA
  = ((swapScores riskA riskB loadA loadB).2, (swapScores riskA riskB loadA loadB).1).
Proof.
  unfold swapScores, riskierAndHeavier.
  repeat case_decide; try done; exfalso; intuition lia.
Qed.

Lemma swapScores_unchanged (riskA riskB : N) (loadA loadB : nat) :
  ~ riskierAndHeavier riskA riskB loadA loadB ->
  ~ riskierAndHeavier riskB riskA loadB loadA ->
  swapScores riskA riskB loadA loadB = (riskA, riskB).
Proof. intros HA HB. unfold swapScores. by repeat case_decide. Qed.
End SwapSymmetry.

Section AddSub.
Variables prec emax : Z.

Lemma SFadd_comm x y : SFadd prec emax x y = SFadd prec emax y x.
Proof.
  destruct x as [sx|sx| |sx mx ex], y as [sy|sy| |sy my ey]; simpl; try done;
    try (by destruct sx, sy).
  by rewrite Z.min_comm, Z.add_comm.
Qed.

(** A number less itself is +0; NaN or an infinity less itself is NaN. *)
Lemma SFsub_diag x :
  SFsub prec emax x x = S754_zero false \/ SFsub prec emax x x = S754_nan.
Proof.
  destruct x as [[]|[]| |s m e]; simpl; auto.
  rewrite Z.sub_diag. by left.
Qed.
End AddSub.

Lemma float_add_comm (x y : float) : (x + y)%float = (y + x)%float.
Proof. apply Prim2SF_inj. rewrite !FloatAxioms.add_spec. apply SFadd_comm. Qed.

(** No bound that is not negative lies below a multiple of [x - x]. *)
Lemma float_sub_diag_not_above (x k bound : float) :
  SFnonneg (Prim2SF bound) -> PrimFloat.ltb bound ((x - x) * k) = false.
Proof.
  intros Hb. rewrite FloatAxioms.ltb_spec, FloatAxioms.mul_spec, FloatAxioms.sub_spec.
  unfold SF64mul, SF64sub.
  destruct (SFsub_diag FloatOps.prec FloatOps.emax (Prim2SF x)) as [-> | ->];
    destruct (Prim2SF bound) as [sb|[]| |[] mb eb]; try done;
    destruct (Prim2SF k) as [sk|sk| |sk mk ek]; done.
Qed.

(** X17.  The optimizer does not depend on which aircraft is passed first:
    with the two aircraft and their rotations exchanged, the two scores and
    the two aircraft come back exchanged, and feasibility, improvement and
    recommendation are the same. *)
Theorem optimizeTailSwap_mirror (env : DateEnv float)
    (ac1 : Aircraft float) (legs1 : list FlightLeg)
    (ac2 : Aircraft float) (legs2 : list FlightLeg) :
  let swap := optimizeTailSwap env ac1 legs1 ac2 legs2 in
  let mirror := optimizeTailSwap env ac2 legs2 ac1 legs1 in
  aircraftA mirror = aircraftB swap
  /\ aircraftB mirror = aircraftA swap
  /\ riskScoreA mirror = riskScoreB swap
  /\ riskScoreB mirror = riskScoreA swap
  /\ feasible mirror = feasible swap
  /\ improvement mirror = improvement swap
  /\ recommendation mirror = recommendation swap.
Proof.
  intros swap mirror.
  set (b1 := calculateMaintenanceRisk env ac1).
  set (b2 := calculateMaintenanceRisk env ac2).
  assert (Hs : (riskScoreA swap, riskScoreB swap)
               = swapScores b1 b2 (length legs1) (length legs2))
    by apply (optimizeTailSwap_scores env ac1 legs1 ac2 legs2).
  assert (Hs' : (riskScoreA mirror, riskScoreB mirror)
                = swapScores b2 b1 (length legs2) (length legs1))
    by apply (optimizeTailSwap_scores env ac2 legs2 ac1 legs1).
  assert (Hi : improvement swap
               = ((b1 + b2 - (riskScoreA swap + riskScoreB swap)) * lit 100)%js)
    by apply (optimizeTailSwap_scores env ac1 legs1 ac2 legs2).
  assert (Hi' : improvement mirror
                = ((b2 + b1 - (riskScoreA mirror + riskScoreB mirror)) * lit 100)%js)
    by apply (optimizeTailSwap_scores env ac2 legs2 ac1 legs1).
  destruct (optimizeTailSwap_recommendation env ac1 legs1 ac2 legs2) as [Hf Hr].
  destruct (optimizeTailSwap_recommendation env ac2 legs2 ac1 legs1) as [Hf' Hr'].
  fold swap in Hf, Hr. fold mirror in Hf', Hr'.
  pose proof (swapScores_mirror b1 b2 (length legs1) (length legs2)) as Hm.
  rewrite <- Hs in Hm. cbn [fst snd] in Hm. rewrite Hm in Hs'.
  pose proof (f_equal fst Hs') as HA. pose proof (f_equal snd Hs') as HB.
  cbn [fst snd] in HA, HB.
  assert (Hfeas : feasible mirror = feasible swap) by (rewrite Hf, Hf'; apply andb_comm).
  assert (Himp : improvement mirror = improvement swap).
  { rewrite Hi, Hi', HA, HB.
    change ((b2 + b1 - (riskScoreB swap + riskScoreA swap)) * float_lit 100
            = (b1 + b2 - (riskScoreA swap + riskScoreB swap)) * float_lit 100)%float.
    by rewrite (float_add_comm b2 b1), (float_add_comm (riskScoreB swap)). }
  split; [reflexivity|]. split; [reflexivity|].
  split; [exact HA|]. split; [exact HB|].
  split; [exact Hfeas|]. split; [exact Himp|].
  rewrite Hr, Hr', Hfeas, Himp. reflexivity.
Qed.

(** X18.  Unless one aircraft is both the riskier one and the one on the
    heavier schedule, the optimizer changes no score, finds no improvement
    above 0, and never recommends the swap: the recommendation is to keep the
    assignment, or that the swap is not feasible. *)
Theorem optimizeTailSwap_nothing_to_gain (env : DateEnv float)
    (ac1 : Aircraft float) (legs1 : list FlightLeg)
    (ac2 : Aircraft float) (legs2 : list FlightLeg) :
  let swap := optimizeTailSwap env ac1 legs1 ac2 legs2 in
  let baseRiskA := calculateMaintenanceRisk env ac1 in
  let baseRiskB := calculateMaintenanceRisk env ac2 in
  ~ riskierAndHeavier baseRiskA baseRiskB (length legs1) (length legs2) ->
  ~ riskierAndHeavier baseRiskB baseRiskA (length legs2) (length legs1) ->
  riskScoreA swap = baseRiskA
  /\ riskScoreB swap = baseRiskB
  /\ (improvement swap > lit 0)%js = false
  /\ recommendation swap
     = (if feasible swap then "Keep current assignment."
        else "Swap not feasible due to rotation conflicts.")%string.
Proof.
  intros swap baseRiskA baseRiskB HA HB.
  destruct (optimizeTailSwap_scores env ac1 legs1 ac2 legs2) as [Hs Hi].
  destruct (optimizeTailSwap_recommendation env ac1 legs1 ac2 legs2) as [_ Hr].
  fold swap baseRiskA baseRiskB in Hs, Hi, Hr.
  rewrite (swapScores_unchanged _ _ _ _ HA HB) in Hs.
  pose proof (f_equal fst Hs) as HsA. pose proof (f_equal snd Hs) as HsB.
  cbn [fst snd] in HsA, HsB.
  rewrite HsA, HsB in Hi.
  assert (H0 : (improvement swap > lit 0)%js = false)
    by (rewrite Hi; by apply float_sub_diag_not_above).
  assert (H5 : (improvement swap > lit 5)%js = false)
    by (rewrite Hi; by apply float_sub_diag_not_above).
  split; [exact HsA|]. split; [exact HsB|]. split; [exact H0|].
  rewrite Hr. unfold recommendationFor. rewrite H0, H5.
  destruct (feasible swap); repeat case_decide; done.
Qed.

Lemma optimizeTailSwap_nothing_to_gain_witness :
  let swap := optimizeTailSwap (N := float) sampleEnv AC_A LEGS_B AC_B LEGS_B in
  let baseRiskA := calculateMaintenanceRisk (N := float) sampleEnv AC_A in
  let baseRiskB := calculateMaintenanceRisk (N := float) sampleEnv AC_B in
  ~ riskierAndHeavier baseRiskA baseRiskB (length LEGS_B) (length LEGS_B)
  /\ ~ riskierAndHeavier baseRiskB baseRiskA (length LEGS_B) (length LEGS_B)
  /\ riskScoreA swap = baseRiskA
  /\ riskScoreB swap = baseRiskB
  /\ (improvement swap > lit 0)%js = false
  /\ recommendation swap
     = (if feasible swap then "Keep current assignment."
        else "Swap not feasible due to rotation conflicts.")%string.
Proof.
  intros swap baseRiskA baseRiskB.
  assert (HA : ~ riskierAndHeavier baseRiskA baseRiskB (length LEGS_B) (length LEGS_B))
    by (intros [_ Hload]; simpl in Hload; lia).
  assert (HB : ~ riskierAndHeavier baseRiskB baseRiskA (length LEGS_B) (length LEGS_B))
    by (intros [_ Hload]; simpl in Hload; lia).
  split; [exact HA|]. split; [exact HB|].
  exact (optimizeTailSwap_nothing_to_gain sampleEnv AC_A LEGS_B AC_B LEGS_B HA HB).
Defined.

(** ** Risk-level classifiers: order and composition *)

(** X19.  Both classifiers respect the order of scores: a score that is not
    smaller never gets a lower level. *)
Theorem classifiers_monotone (s1 s2 : float) :
  (s1 <= s2)%js = true ->
  levelRank (calculateRiskLevel s1) <= levelRank (calculateRiskLevel s2)
  /\ levelRank (levelOfLabel (RiskBadge_riskLabel s1))
     <= levelRank (levelOfLabel (RiskBadge_riskLabel s2)).
Proof.
  intros Hle.
  destruct (leb_number _ _ Hle) as ([[a1 a2] a3] & [[b1 b2] b3] & Ha & Hb).
  unfold calculateRiskLevel, RiskBadge_riskLabel, num_gt, num_ge. simpl in *. split.
  - destruct (PrimFloat.ltb s1 (float_lit 0.25)) eqn:L1,
      (PrimFloat.leb s1 (float_lit 0.6)) eqn:M1,
      (PrimFloat.ltb s2 (float_lit 0.25)) eqn:L2,
      (PrimFloat.leb s2 (float_lit 0.6)) eqn:M2;
      simpl; try lia; exfalso; float_order; lia.
  - destruct (PrimFloat.ltb (float_lit 0.6) s1) eqn:H1,
      (PrimFloat.leb (float_lit 0.25) s1) eqn:M1,
      (PrimFloat.ltb (float_lit 0.6) s2) eqn:H2,
      (PrimFloat.leb (float_lit 0.25) s2) eqn:M2;
      simpl; try lia; exfalso; float_order; lia.
Qed.

Lemma classifiers_monotone_witness :
  let s1 : float := lit 0.25 in
  let s2 : float := lit 0.61 in
  (s1 <= s2)%js = true
  /\ levelRank (calculateRiskLevel s1) <= levelRank (calculateRiskLevel s2)
  /\ levelRank (levelOfLabel (RiskBadge_riskLabel s1))
     <= levelRank (levelOfLabel (RiskBadge_riskLabel s2)).
Proof.
  intros s1 s2. split; [reflexivity|].
  exact (classifiers_monotone s1 s2 eq_refl).
Defined.

(** X20.  The delay score of any input is a number, so on the output of
    [calculateDelayRisk] the badge and [calculateRiskLevel] always show the
    same level, that of the canonical rule. *)
Theorem classifiers_agree_on_delay_risk (input : DelayInput float) :
  levelOfLabel (RiskBadge_riskLabel (calculateDelayRisk input))
  = calculateRiskLevel (calculateDelayRisk input)
  /\ canonicalLevel (calculateDelayRisk input)
     = Some (calculateRiskLevel (calculateDelayRisk input)).
Proof.
  apply classifiers_agree_on_numbers.
  rewrite calculateDelayRisk_flags.
  destruct (delayScoreOf_range
              (jsint_gt (parseTime (schedDepTime input)) (Some 1000))
              (jsint_gt (parseTime (schedDepTime input)) (Some 720))
              (num_gt (prevDelayMinutes input) (lit 60))
              (num_gt (prevDelayMinutes input) (lit 15))
              (weatherCondition input)
              (String.eqb (aircraftType input) "B737-MAX"
               || String.eqb (aircraftType input) "A321neo")) as (H0 & _ & _).
  apply is_number_rank. destruct (leb_number _ _ H0) as (_ & b & _ & Hb). eauto.
Qed.

(** ** Rotation engine: the fields it does not read *)

Section SortMap.
Context {A : Type} (comparefn : A -> A -> jsint) (f : A -> A).
Hypothesis comparefn_f : forall x y, comparefn (f x) (f y) = comparefn x y.

Lemma sort_insert_map x l :
  sort_insert comparefn (f x) (map f l) = map f (sort_insert comparefn x l).
Proof.
  induction l as [|y l IH]; [done|]. simpl. unfold comes_after.
  rewrite comparefn_f. destruct (jsint_gt _ _); simpl; [by rewrite IH|done].
Qed.

Lemma Array_sort_map l :
  Array_sort comparefn (map f l) = map f (Array_sort comparefn l).
Proof.
  induction l as [|x l IH]; [done|]. simpl.
  change (fold_right (sort_insert comparefn) [] (map f l))
    with (Array_sort comparefn (map f l)).
  by rewrite IH, sort_insert_map.
Qed.
End SortMap.

Lemma adjacentPairs_map {A B} (f : A -> B) (l : list A) :
  adjacentPairs (map f l) = map (fun p => (f p.1, f p.2)) (adjacentPairs l).
Proof.
  unfold adjacentPairs. destruct l as [|x l]; [done|]. simpl.
  revert x. induction l as [|y l IH]; intros x; [done|]. simpl. by rewrite IH.
Qed.

Lemma flat_map_map {A B C} (g : B -> list C) (h : A -> B) (l : list A) :
  flat_map g (map h l) = flat_map (fun x => g (h x)) l.
Proof. induction l as [|x l IH]; [done|]. simpl. by rewrite IH. Qed.

(** X21.  The validator never reads the status of a leg: whatever status
    each leg is given, a cancelled one included, the result is the same. *)
Theorem validateRotation_ignores_status (legs : list FlightLeg)
    (st : FlightLeg -> LegStatus) :
  validateRotation (map (fun l => withStatus (st l) l) legs) = validateRotation legs.
Proof.
  unfold validateRotation, validateSorted. cbv zeta.
  rewrite (Array_sort_map byDeparture (fun l => withStatus (st l) l))
    by reflexivity.
  rewrite !checkPairs_flat_map, adjacentPairs_map, flat_map_map.
  reflexivity.
Qed.

(** ** The tail-swap page *)

(** X22.  Whatever the date and whatever the platform makes of the two
    maintenance dates, the scenario that the tail-swap page computes locally
    for its two aircraft is feasible, improves by more than 5 and carries the
    strong recommendation. *)
Theorem handleOptimize_strong (env : DateEnv float) :
  let result := handleOptimize env in
  feasible result = true
  /\ (improvement result > lit 5)%js = true
  /\ recommendation result
     = "STRONG RECOMMENDATION: Swap tails to mitigate maintenance risk on tight rotation."%string.
Proof.
  unfold handleOptimize, optimizeTailSwap, calculateMaintenanceRisk.
  cbv zeta.
  destruct (num_gt (daysSinceMaint env AC_A) (lit 30)),
    (num_gt (daysSinceMaint env AC_B) (lit 30)); vm_compute; done.
Qed.

(** ** The rotation page *)

(** X23.  Once a leg has been removed on the rotation page, the next local
    validation blames no leg of that id, in whatever order the page holds
    the remaining legs. *)
Theorem removed_leg_not_reported (i : string) (st st' : RotationPageState)
    (c : RotationConflict) :
  rendered (handleRemoveLeg i st) st' ->
  (exists r, validationResult (runValidation st') = Some r /\ c ∈ conflicts r) ->
  legId c <> i.
Proof.
  intros [Hperm _] (r & Hr & Hc). simpl in Hr. injection Hr as <-.
  apply conflict_names_leg in Hc as (l & Hl & ->).
  rewrite Hperm in Hl. simpl in Hl.
  apply list_elem_of_In, filter_In in Hl as [_ Hne].
  apply negb_true_iff in Hne. by apply String.eqb_neq in Hne.
Qed.

Lemma removed_leg_not_reported_witness :
  let st := {| legs := [leg "1" "IST" "LHR" "08:00" "10:00";
                        leg "2" "LHR" "CDG" "10:10" "11:00";
                        leg "3" "IST" "ESB" "11:05" "12:00"];
               validationResult := None |} in
  let st' := handleRemoveLeg "2" st in
  let c := locationMismatch (leg "1" "IST" "LHR" "08:00" "10:00")
                            (leg "3" "IST" "ESB" "11:05" "12:00") in
  rendered (handleRemoveLeg "2" st) st'
  /\ (exists r, validationResult (runValidation st') = Some r /\ c ∈ conflicts r)
  /\ legId c <> "2"%string.
Proof.
  intros st st' c.
  assert (Hr : rendered (handleRemoveLeg "2" st) st') by (split; reflexivity).
  assert (Hc : exists r, validationResult (runValidation st') = Some r /\ c ∈ conflicts r).
  { eexists. split; [reflexivity|]. vm_compute. left. }
  split; [exact Hr|]. split; [exact Hc|].
  exact (removed_leg_not_reported "2" st st' c Hr Hc).
Defined.

(** ** Clock values: more than two pieces *)

Lemma String_split_first sep piece rest :
  occurs sep piece = false ->
  String_split sep (piece +:+ String sep rest) = piece :: String_split sep rest.
Proof.
  induction piece as [|c piece IH]; simpl.
  - intros _. by rewrite Ascii.eqb_refl.
  - intros [Hc Hs]%orb_false_iff. rewrite Hc. by rewrite (IH Hs).
Qed.

(** X24.  [parseTime] reads the first two pieces only: whatever follows a
    second colon, seconds for instance, is ignored. *)
Theorem parseTime_two_pieces (hh mm rest : string) :
  occurs ":" hh = false -> occurs ":" mm = false ->
  parseTime (hh +:+ ":" +:+ mm +:+ ":" +:+ rest) = parseTime (hh +:+ ":" +:+ mm).
Proof.
  intros Hh Hm. unfold parseTime.
  change (":" +:+ mm +:+ ":" +:+ rest) with (String ":" (mm +:+ String ":" rest)).
  change (":" +:+ mm) with (String ":" mm).
  rewrite !(String_split_first _ _ _ Hh), (String_split_first _ _ _ Hm).
  by rewrite (String_split_absent _ _ Hm).
Qed.

Lemma parseTime_two_pieces_witness :
  occurs ":" "08" = false /\ occurs ":" "30" = false
  /\ parseTime ("08" +:+ ":" +:+ "30" +:+ ":" +:+ "59") = parseTime ("08" +:+ ":" +:+ "30").
Proof.
  split; [reflexivity|]. split; [reflexivity|].
  exact (parseTime_two_pieces "08" "30" "59" eq_refl eq_refl).
Defined.

(** ** The API client and the delay-risk page *)

Section ApiFacts.
Variable ToString : JsValue -> string.

Lemma postDelayRisk_Fulfilled (data : JsValue) :
  postDelayRisk ToString (Fulfilled data)
  = match (if truthy data then numberOf (property "riskScore" data) else None) with
    | Some _ => Resolved data
    | None => Rejected ("Request failed: " +:+ invalidBody)
    end.
Proof.
  unfold postDelayRisk.
  by destruct (if truthy data then numberOf (property "riskScore" data) else None).
Qed.

Lemma numberOf_Some (v : JsValue) (n : float) : numberOf v = Some n <-> v = VNum n.
Proof. destruct v; simpl; split; congruence. Qed.

Lemma postDelayRisk_Resolved (outcome : AxiosOutcome) (v : JsValue) :
  postDelayRisk ToString outcome = Resolved v
  <-> outcome = Fulfilled v /\ truthy v = true
      /\ exists n, property "riskScore" v = VNum n.
Proof.
  destruct outcome as [data|e].
  - rewrite postDelayRisk_Fulfilled.
    destruct (truthy data) eqn:Ht;
      [destruct (numberOf (property "riskScore" data)) as [n|] eqn:Hn|].
    + apply numberOf_Some in Hn. split.
      * intros [= <-]. eauto.
      * by intros ([= <-] & _ & _).
    + split; [done|]. intros ([= <-] & _ & n & Hv). rewrite Hv in Hn. done.
    + split; [done|]. intros ([= <-] & Ht' & _). congruence.
  - split; [done|]. by intros [? _].
Qed.

(** Every rejection carries one of the three messages of the [catch]
    block. *)
Lemma postDelayRisk_Rejected (outcome : AxiosOutcome) (message : string) :
  postDelayRisk ToString outcome = Rejected message ->
  (exists rest, message = "API Error: " +:+ rest)
  \/ message = backendDown
  \/ (exists rest, message = "Request failed: " +:+ rest).
Proof.
  assert (Hre : forall e, (exists rest, rethrown ToString e = "API Error: " +:+ rest)
                 \/ rethrown ToString e = backendDown
                 \/ (exists rest, rethrown ToString e = "Request failed: " +:+ rest)).
  { intros e. unfold rethrown.
    destruct (error_response e); [eauto|]. destruct (error_request e); eauto. }
  destruct outcome as [data|e].
  - rewrite postDelayRisk_Fulfilled.
    destruct (if truthy data then _ else _); [done|]. intros [= <-]. eauto.
  - intros [= <-]. apply Hre.
Qed.

(** X25.  [postDelayRisk] resolves exactly when the request succeeded with
    a body that counts as true and whose [riskScore] is of type number, and it
    then resolves with that body, unchanged. *)
Theorem postDelayRisk_resolves (outcome : AxiosOutcome) (v : JsValue) :
  postDelayRisk ToString outcome = Resolved v
  <-> outcome = Fulfilled v /\ truthy v = true
      /\ exists n, property "riskScore" v = VNum n.
Proof. apply postDelayRisk_Resolved. Qed.

(** X26.  The error that [postDelayRisk] throws on a body without a numeric
    [riskScore] is thrown inside its own [try]: it passes through the [catch]
    block, and the caller sees it with the prefix of a failed request. *)
Theorem postDelayRisk_invalid_body (data : JsValue) :
  truthy data = false \/ numberOf (property "riskScore" data) = None ->
  postDelayRisk ToString (Fulfilled data)
  = Rejected "Request failed: Invalid response from API: riskScore is missing or not a number".
Proof.
  intros Hbad. rewrite postDelayRisk_Fulfilled.
  by destruct Hbad as [-> | Hn]; [|destruct (truthy data); rewrite ?Hn].
Qed.

(** X27.  The delay-risk page repeats the check of the response after the
    client has made it: the page's own check never fails, and its message is
    never shown. *)
Theorem handleCalculate_check_never_fails (outcome : AxiosOutcome) :
  error (handleCalculate ToString outcome) <> Some pageCheckFailed.
Proof.
  unfold handleCalculate.
  destruct (postDelayRisk ToString outcome) as [response|message] eqn:Hpost.
  - apply postDelayRisk_Resolved in Hpost as (_ & -> & n & ->). done.
  - apply postDelayRisk_Rejected in Hpost as [[rest ->]|[->|[rest ->]]];
      simpl; intros [= ?]; done.
Qed.

(** X28.  When [handleCalculate] has run, the page is no longer loading and
    shows either a score with a level that is not empty and no error, or an
    error message that is not empty and neither score nor level. *)
Theorem handleCalculate_settles (outcome : AxiosOutcome) :
  let st := handleCalculate ToString outcome in
  isLoading st = false
  /\ ((exists score level,
         riskScore st = Some score /\ riskLevel st = Some level
         /\ truthy level = true /\ error st = None)
      \/ (exists message,
            message <> ""%string /\ error st = Some message
            /\ riskScore st = None /\ riskLevel st = None)).
Proof.
  unfold handleCalculate.
  destruct (postDelayRisk ToString outcome) as [response|message] eqn:Hpost.
  - apply postDelayRisk_Resolved in Hpost as (_ & -> & n & ->). simpl.
    split; [done|]. left. eexists _, _. split; [done|]. split; [done|]. split; [|done].
    destruct (truthy (property "riskLevel" response)) eqn:Hl; [done|].
    by destruct (calculateRiskLevel n).
  - simpl. split; [done|]. right. eexists. split; [|done].
    destruct (String.eqb_spec message ""); done.
Qed.
End ApiFacts.

Lemma postDelayRisk_invalid_body_witness :
  let ToString := fun _ : JsValue => ""%string in
  let data := VObj [("riskScore"%string, VStr "0.4")] in
  (truthy data = false \/ numberOf (property "riskScore" data) = None)
  /\ postDelayRisk ToString (Fulfilled data)
     = Rejected "Request failed: Invalid response from API: riskScore is missing or not a number".
Proof.
  intros ToString data.
  assert (Hbad : truthy data = false \/ numberOf (property "riskScore" data) = None)
    by (right; reflexivity).
  split; [exact Hbad|]. exact (postDelayRisk_invalid_body ToString data Hbad).
Defined.
